(** * nero: the media repository (package [repo])

    A shallow embedding of [repo/repo.go]: the [Repository] type, its two
    constructors and its operations [Get], [Items], [Random], [Create],
    [Add], [Remove], together with the private index writers [save],
    [saveSingle] and [write].

    The Go code talks to the operating system, to the global random source
    and to the map iteration order of the runtime.  All of these live in an
    explicit [World] that every effectful operation threads through. *)

From Stdlib Require Import Strings.Byte Strings.Ascii Strings.String.
From stdpp Require Import gmap strings list fin_maps.

Local Open Scope string_scope.
Local Open Scope list_scope.

(** ** Bytes *)

Abbreviation byte := Byte.byte.
Abbreviation bytes := (list Byte.byte).

#[global] Instance byte_eq_dec : EqDecision byte := Byte.byte_eq_dec.

(** [[]byte(s)] *)
Definition bytes_of_string (s : string) : bytes := list_byte_of_string s.

(** The byte ['\n'] that ends every index record. *)
Definition NL : byte := Byte.x0a.
(** The byte ['\r'] that the line scanner drops at the end of a line. *)
Definition CR : byte := Byte.x0d.

(** ** Package [uuid] (github.com/google/uuid)

    A UUID is a [[16]byte]; it is kept as the 128-bit number whose
    big-endian bytes are the array. *)
Module uuid.

Definition UUID := N.

Definition hex_digit (n : N) : ascii :=
  nth (N.to_nat n)
      ["0"; "1"; "2"; "3"; "4"; "5"; "6"; "7";
       "8"; "9"; "a"; "b"; "c"; "d"; "e"; "f"]%char "0"%char.

(** Byte [i] of the array, [0 <= i < 16]. *)
Definition byte_at (u : UUID) (i : nat) : N :=
  N.land (N.shiftr u (8 * N.of_nat (15 - i))) 255.

Definition hex_byte (b : N) : string :=
  String (hex_digit (b / 16)) (String (hex_digit (b mod 16)) EmptyString).

(** Hex of the bytes [i, i+1, ..., i+n-1]. *)
Definition hex_range (u : UUID) (i n : nat) : string :=
  foldr (fun k acc => hex_byte (byte_at u k) +:+ acc) EmptyString (seq i n).

(** [func (uuid UUID) String() string]:
    xxxxxxxx-xxxx-xxxx-xxxx-xxxxxxxxxxxx *)
Definition String (u : UUID) : string :=
  hex_range u 0 4 +:+ "-" +:+ hex_range u 4 2 +:+ "-" +:+
  hex_range u 6 2 +:+ "-" +:+ hex_range u 8 2 +:+ "-" +:+ hex_range u 10 6.

End uuid.

Abbreviation UUID := uuid.UUID.

(** ** Package [meta] and package [media] *)

(** [type Type uint] with [TypeGeneric = iota] and [TypeAnime]. *)
Inductive MetaType := TypeGeneric | TypeAnime.

Definition MetaType_uint (t : MetaType) : N :=
  match t with TypeGeneric => 0 | TypeAnime => 1 end.

(** Modelled from the spec: the two implementations of the interface
    [meta.Metadata], whose declarations are not among the sources.
    [Generic { source, artist, artistLink : optional string }] and
    [Anime { name : optional string }]. *)
Inductive Metadata :=
| GenericMetadata (Source Artist ArtistLink : option string)
| AnimeMetadata (Name : option string).

(** The interface method [Type() Type]. *)
Definition Metadata_Type (m : Metadata) : MetaType :=
  match m with
  | GenericMetadata _ _ _ => TypeGeneric
  | AnimeMetadata _ => TypeAnime
  end.

(** Modelled from the spec: [media.Format], the constants the repository
    uses ([format ∈ {Unknown, Image, AnimatedImage}]). *)
Inductive Format := FormatUnknown | FormatImage | FormatAnimatedImage.

(** Modelled from the spec: the struct [media.Media] with the four fields
    [repo.go] reads and writes.  [Meta] is an interface value and may be
    nil. *)
Record Media := mkMedia {
  ID : UUID;
  Format_ : Format;
  Path : string;
  Meta : option Metadata;
}.

#[global] Instance MetaType_eq_dec : EqDecision MetaType.
Proof. solve_decision. Defined.
#[global] Instance Metadata_eq_dec : EqDecision Metadata.
Proof. solve_decision. Defined.
#[global] Instance Format_eq_dec : EqDecision Format.
Proof. solve_decision. Defined.
#[global] Instance Media_eq_dec : EqDecision Media.
Proof. solve_decision. Defined.

(** ** Errors *)

(** The error numbers the model distinguishes. *)
Inductive Errno := ENOENT | EEXIST | EISDIR | ENOTDIR | EACCES | EIO | ENOSPC.

#[global] Instance Errno_eq_dec : EqDecision Errno.
Proof. solve_decision. Defined.

(** Go [error] values that can come out of the repository. *)
#[warnings="-register-all"]
Inductive error :=
| ErrUnsupported                               (* errors.ErrUnsupported *)
| ErrDuplicateID (ID Repo : string)            (* &ErrDuplicateID{ID, Repo} *)
| PathError (op path : string) (e : Errno)     (* *fs.PathError *)
| ErrTooLong                                   (* bufio.ErrTooLong *)
| CodecError (msg : string)                    (* an encoding/json error *)
| RelError (base targ : string)                (* filepath.Rel: can't make ... *)
| Wrapped (cause : error) (msg : string)       (* errors.Wrap(cause, msg) *)
| Multi (errs : list error).                   (* multierr's combined error *)

(** [errors.Is(err, os.ErrNotExist)] for the errors of package [os]. *)
Definition is_not_exist (e : error) : bool :=
  match e with
  | PathError _ _ ENOENT => true
  | _ => false
  end.

(** Modelled from the spec: [errors.Wrap] of the repository's package
    [internal/errors], which is not among the sources; it attaches the
    operation's message to the underlying cause. *)
Definition Wrap (e : error) (msg : string) : error := Wrapped e msg.

(** ** Package [multierr] (go.uber.org/multierr) *)
Module multierr.

Definition errors_of (e : error) : list error :=
  match e with
  | Multi es => es
  | _ => [e]
  end.

(** [func Append(left, right error) error] *)
Definition Append (left right : option error) : option error :=
  match left, right with
  | None, _ => right
  | _, None => left
  | Some l, Some r => Some (Multi (errors_of l ++ errors_of r))
  end.

End multierr.

(** ** Package [path/filepath], Unix flavour

    Paths are handled element by element: a path is split at ['/'], the
    rules of [Clean] are applied to the elements and the result is joined
    again. *)
Module filepath.

Definition Separator : ascii := "/"%char.

(** [strings.Split(s, "/")] *)
Fixpoint split (s : string) : list string :=
  match s with
  | EmptyString => [EmptyString]
  | String c s' =>
      if Ascii.eqb c Separator then EmptyString :: split s'
      else match split s' with
           | h :: t => String c h :: t
           | [] => [String c EmptyString]
           end
  end.

(** [func IsAbs(path string) bool]: [strings.HasPrefix(path, "/")] *)
Definition IsAbs (path : string) : bool :=
  match path with
  | String c _ => Ascii.eqb c Separator
  | EmptyString => false
  end.

(** One element of the path meets the elements kept so far (innermost
    first).  Rules 1 to 4 of [Clean]: empty elements and [.] vanish, [..]
    removes the element before it, at the root it vanishes, and at the
    start of a relative path it stays. *)
Definition clean_step (rooted : bool) (kept : list string) (e : string)
  : list string :=
  if String.eqb e "" || String.eqb e "." then kept
  else if String.eqb e ".." then
    match kept with
    | top :: rest => if String.eqb top ".." then e :: kept else rest
    | [] => if rooted then [] else [e]
    end
  else e :: kept.

(** [func Clean(path string) string] *)
Definition Clean (path : string) : string :=
  let rooted := IsAbs path in
  let kept := rev (fold_left (clean_step rooted) (split path) []) in
  let body := String.concat "/" kept in
  if rooted then "/" +:+ body
  else if String.eqb body "" then "." else body.

(** [func Join(elem ...string) string]: the leading empty elements are
    dropped, the rest is joined with ['/'] and cleaned; no element at
    all gives the empty string. *)
Fixpoint Join (elem : list string) : string :=
  match elem with
  | [] => ""
  | e :: rest =>
      if String.eqb e "" then Join rest
      else Clean (String.concat "/" elem)
  end.

(** The elements of a cleaned path. *)
Definition elements (cleaned : string) : list string :=
  filter (fun e => e <> EmptyString) (split cleaned).

Fixpoint strip_common (b t : list string) : list string * list string :=
  match b, t with
  | x :: b', y :: t' => if String.eqb x y then strip_common b' t' else (b, t)
  | _, _ => (b, t)
  end.

(** [func Rel(basepath, targpath string) (string, error)] *)
Definition Rel (basepath targpath : string) : string + error :=
  let base := Clean basepath in
  let targ := Clean targpath in
  if String.eqb targ base then inl "."
  else
    let base := if String.eqb base "." then "" else base in
    if negb (Bool.eqb (IsAbs base) (IsAbs targ))
    then inr (RelError basepath targpath)
    else
      let '(b, t) := strip_common (elements base) (elements targ) in
      match b with
      | e :: _ =>
          if String.eqb e ".." then inr (RelError basepath targpath)
          else inl (String.concat "/" (map (fun _ => "..") b ++ t))
      | [] => inl (String.concat "/" t)
      end.

End filepath.

Arguments filepath.Clean : simpl never.
Arguments filepath.Join : simpl never.
Arguments filepath.Rel : simpl never.

(** ** The world outside the repository *)

(** An injected failure of one system call: the error number, and for a
    write or a read the number of bytes that went through before it.
    Permissions, quotas and devices are not part of the world: whatever
    they make the system refuse is an injected failure. *)
Record Fault := mkFault { errno : Errno; partial : nat }.

(** The flags of [os.OpenFile] next to [O_WRONLY]. *)
Record OpenFlags := mkFlags {
  O_APPEND : bool;
  O_CREATE : bool;
  O_TRUNC : bool;
  O_EXCL : bool;
}.

(** The system calls, as they are recorded in the trace. *)
Inductive Syscall :=
| SysGetwd
| SysMkdirAll (p : string)
| SysStat (p : string)
| SysOpen (p : string)
| SysOpenFile (p : string) (flag : OpenFlags)
| SysRead (p : string)
| SysWrite (p : string) (n : nat)
| SysClose (p : string).

(** A warning of the logger: message, repository, id. *)
Record Warning := mkWarning { w_msg : string; w_repo : string; w_id : string }.

Record World := mkWorld {
  files : gmap string bytes;     (* regular files, by absolute clean path *)
  dirs : gset string;            (* directories, by absolute clean path *)
  cwd : string;                  (* working directory, absolute *)
  faults : list (option Fault);  (* what happens to the next system calls *)
  trace : list Syscall;          (* the system calls made so far, latest first *)
  orders : list (list nat);      (* iteration orders of the next map ranges *)
  random : list nat;             (* the next draws of the global math/rand source *)
  uuids : list UUID;             (* the next results of uuid.New() *)
  warnings : list Warning;       (* what the logger has been told, latest first *)
}.

Definition set_files (f : gmap string bytes) (w : World) : World :=
  mkWorld f (dirs w) (cwd w) (faults w) (trace w) (orders w) (random w) (uuids w) (warnings w).
Definition set_dirs (d : gset string) (w : World) : World :=
  mkWorld (files w) d (cwd w) (faults w) (trace w) (orders w) (random w) (uuids w) (warnings w).
Definition set_faults (fs : list (option Fault)) (w : World) : World :=
  mkWorld (files w) (dirs w) (cwd w) fs (trace w) (orders w) (random w) (uuids w) (warnings w).
Definition set_trace (t : list Syscall) (w : World) : World :=
  mkWorld (files w) (dirs w) (cwd w) (faults w) t (orders w) (random w) (uuids w) (warnings w).
Definition set_orders (o : list (list nat)) (w : World) : World :=
  mkWorld (files w) (dirs w) (cwd w) (faults w) (trace w) o (random w) (uuids w) (warnings w).
Definition set_random (r : list nat) (w : World) : World :=
  mkWorld (files w) (dirs w) (cwd w) (faults w) (trace w) (orders w) r (uuids w) (warnings w).
Definition set_uuids (u : list UUID) (w : World) : World :=
  mkWorld (files w) (dirs w) (cwd w) (faults w) (trace w) (orders w) (random w) u (warnings w).
Definition set_warnings (l : list Warning) (w : World) : World :=
  mkWorld (files w) (dirs w) (cwd w) (faults w) (trace w) (orders w) (random w) (uuids w) l.

(** Effectful code is a function of the world. *)
Definition IO (A : Type) : Type := World -> A * World.

Definition ret {A : Type} (a : A) : IO A := fun w => (a, w).

Definition bind {A B : Type} (m : IO A) (k : A -> IO B) : IO B :=
  fun w => let '(a, w') := m w in k a w'.

Declare Scope io_scope.
Delimit Scope io_scope with io.
Bind Scope io_scope with IO.

Notation "x <- m ;; k" := (bind m (fun x => k))
  (at level 100, m at next level, right associativity) : io_scope.

Local Open Scope io_scope.

(** ** Package [os] *)
Module os.

(** An open [*os.File]: where it is, the offset of the next write, and
    whether every write goes to the end. *)
Record File := mkFile { fpath : string; offset : nat; fappend : bool }.

(** How the kernel reads a path: relative to the working directory,
    lexically cleaned (there are no symbolic links in the model). *)
Definition resolve (w : World) (p : string) : string :=
  if filepath.IsAbs p then filepath.Clean p
  else filepath.Clean (cwd w +:+ "/" +:+ p).

(** Every system call is recorded and takes the next entry of the fault
    list; when the list is used up nothing fails any more. *)
Definition syscall (ev : Syscall) : IO (option Fault) := fun w =>
  let w' := set_trace (ev :: trace w) w in
  match faults w with
  | [] => (None, w')
  | f :: rest => (f, set_faults rest w')
  end.

(** [os.Getwd()] *)
Definition Getwd : IO (string + error) :=
  f <- syscall SysGetwd;;
  match f with
  | Some flt => ret (inr (PathError "getwd" "." (errno flt)))
  | None => fun w => (inl (cwd w), w)
  end.

(** [os.MkdirAll(path, perm)] *)
Definition MkdirAll (path : string) : IO (option error) :=
  f <- syscall (SysMkdirAll path);;
  match f with
  | Some flt => ret (Some (PathError "mkdir" path (errno flt)))
  | None => fun w =>
      if String.eqb path "" then (Some (PathError "mkdir" path ENOENT), w)
      else
        let p := resolve w path in
        match files w !! p with
        | Some _ => (Some (PathError "mkdir" path ENOTDIR), w)
        | None => (None, set_dirs ({[p]} ∪ dirs w) w)
        end
  end.

(** Does [path] name a file or a directory? *)
Definition exists_ (w : World) (path : string) : bool :=
  negb (String.eqb path "") &&
  (bool_decide (is_Some (files w !! resolve w path))
   || bool_decide (resolve w path ∈ dirs w)).

(** [os.Stat(name)]; only the error is used by the repository. *)
Definition Stat (name : string) : IO (option error) :=
  f <- syscall (SysStat name);;
  match f with
  | Some flt => ret (Some (PathError "stat" name (errno flt)))
  | None => fun w =>
      if exists_ w name then (None, w)
      else (Some (PathError "stat" name ENOENT), w)
  end.

(** [os.Open(name)]: open for reading. *)
Definition Open (name : string) : IO (File + error) :=
  f <- syscall (SysOpen name);;
  match f with
  | Some flt => ret (inr (PathError "open" name (errno flt)))
  | None => fun w =>
      if exists_ w name then (inl (mkFile (resolve w name) 0 false), w)
      else (inr (PathError "open" name ENOENT), w)
  end.

(** [os.OpenFile(name, O_WRONLY|flag, perm)]: open for writing. *)
Definition OpenFile (name : string) (flag : OpenFlags) : IO (File + error) :=
  f <- syscall (SysOpenFile name flag);;
  match f with
  | Some flt => ret (inr (PathError "open" name (errno flt)))
  | None => fun w =>
      let p := resolve w name in
      if String.eqb name "" then (inr (PathError "open" name ENOENT), w)
      else if bool_decide (p ∈ dirs w) then (inr (PathError "open" name EISDIR), w)
      else match files w !! p with
           | Some _ =>
               if O_CREATE flag && O_EXCL flag
               then (inr (PathError "open" name EEXIST), w)
               else (inl (mkFile p 0 (O_APPEND flag)),
                     if O_TRUNC flag then set_files (<[p := []]> (files w)) w else w)
           | None =>
               if O_CREATE flag
               then (inl (mkFile p 0 (O_APPEND flag)), set_files (<[p := []]> (files w)) w)
               else (inr (PathError "open" name ENOENT), w)
           end
  end.

(** The contents of a file after [data] is written at offset [off]. *)
Definition pwrite (old : bytes) (off : nat) (data : bytes) : bytes :=
  take off old ++ replicate (off - length old) Byte.x00 ++ data
    ++ drop (off + length data) old.

(** The bytes of the file behind [f]. *)
Definition contents (w : World) (f : File) : bytes :=
  default [] (files w !! fpath f).

(** What a write of [data] through [f] does to the file and to [f]. *)
Definition put (f : File) (data : bytes) (w : World) : File * World :=
  let old := contents w f in
  let off := if fappend f then length old else offset f in
  (mkFile (fpath f) (off + length data) (fappend f),
   set_files (<[fpath f := pwrite old off data]> (files w)) w).

(** [f.Write(b)]; the file keeps what went through before a failure. *)
Definition Write (f : File) (b : bytes) : IO (File * option error) :=
  flt <- syscall (SysWrite (fpath f) (length b));;
  match flt with
  | Some flt => fun w =>
      let '(f', w') := put f (take (partial flt) b) w in
      ((f', Some (PathError "write" (fpath f) (errno flt))), w')
  | None => fun w =>
      let '(f', w') := put f b w in ((f', None), w')
  end.

(** [f.Close()] *)
Definition Close (f : File) : IO (option error) :=
  flt <- syscall (SysClose (fpath f));;
  ret (match flt with
        | Some flt => Some (PathError "close" (fpath f) (errno flt))
        | None => None
        end).

(** Everything the reads of [f] deliver up to the end of the file or up
    to the first failing read, and that failure. *)
Definition ReadAll (f : File) : IO (bytes * option error) :=
  flt <- syscall (SysRead (fpath f));;
  fun w =>
    match flt with
    | Some flt =>
        ((take (partial flt) (contents w f),
          Some (PathError "read" (fpath f) (errno flt))), w)
    | None =>
        if bool_decide (fpath f ∈ dirs w)
        then (([], Some (PathError "read" (fpath f) EISDIR)), w)
        else ((contents w f, None), w)
    end.

End os.

Arguments os.resolve : simpl never.
Arguments os.exists_ : simpl never.


(** [func Abs(path string) (string, error)] of package [path/filepath] *)
Definition filepath_Abs (path : string) : IO (string + error) :=
  if filepath.IsAbs path then ret (inl (filepath.Clean path))
  else
    wd <- os.Getwd;;
    match wd with
    | inr e => ret (inr e)
    | inl wd => ret (inl (filepath.Join [wd; path]))
    end.

(** [uuid.New()] *)
Definition uuid_New : IO UUID := fun w =>
  match uuids w with
  | [] => (0%N, w)
  | u :: rest => (u, set_uuids rest w)
  end.

(** [logger.Warn(msg, zap.String("repo", repo), zap.String("id", id))] *)
Definition logger_Warn (msg repo id : string) : IO unit := fun w =>
  (tt, set_warnings (mkWarning msg repo id :: warnings w) w).

(** ** Package [bufio]: a [Scanner] with the default split function *)
Module bufio.

Definition MaxScanTokenSize : N := 65536.

(** [dropCR] drops a terminal ['\r'] from the data. *)
Definition dropCR (data : bytes) : bytes :=
  match rev data with
  | b :: r => if Byte.eqb b CR then rev r else data
  | [] => data
  end.

(** The tokens [ScanLines] cuts out of [data]: [cur] holds, latest byte
    first, the bytes of the line being read.  A line that fills the
    buffer of [MaxScanTokenSize] bytes before its end is seen stops the
    scanner with [ErrTooLong]. *)
Fixpoint ScanLines (cur : bytes) (data : bytes) : list bytes * option error :=
  match data with
  | [] => (match cur with [] => [] | _ => [dropCR (rev cur)] end, None)
  | b :: rest =>
      if Byte.eqb b NL then
        let '(toks, e) := ScanLines [] rest in (dropCR (rev cur) :: toks, e)
      else if (MaxScanTokenSize <=? N.of_nat (S (length cur)))%N
      then ([], Some ErrTooLong)
      else ScanLines (b :: cur) rest
  end.

(** All the tokens [s.Scan()] / [s.Bytes()] deliver, and [s.Err()] after
    the last one.  The reads of the scanner are one event of the trace. *)
Definition Scan (f : os.File) : IO (list bytes * option error) :=
  r <- os.ReadAll f;;
  let '(data, rerr) := r in
  let '(toks, terr) := ScanLines [] data in
  ret (toks, match terr with Some e => Some e | None => rerr end).

End bufio.

(** ** Package [math/rand] *)
Module rand.

(** [rand.Intn(n)] on the global source. *)
Definition Intn (n : nat) : IO nat := fun w =>
  match random w with
  | [] => (0, w)
  | x :: rest => (x mod n, set_random rest w)
  end.

(** [for ; i > 0; i-- { j := Intn(i+1); swap(i, j) }].  The state [St]
    is what the callback mutates; a callback that panics gives [None]. *)
Fixpoint shuffle_from {St : Type} (i : nat) (swap : nat -> nat -> St -> option St)
    (s : St) : IO (option St) :=
  match i with
  | 0 => ret (Some s)
  | S i' =>
      j <- Intn (S (S i'));;
      match swap (S i') j s with
      | None => ret None
      | Some s' => shuffle_from i' swap s'
      end
  end.

(** [func Shuffle(n int, swap func(i, j int))] *)
Definition Shuffle {St : Type} (n : nat) (swap : nat -> nat -> St -> option St)
    (s : St) : IO (option St) :=
  shuffle_from (n - 1) swap s.

End rand.

(** ** The runtime: iteration over a map *)
Module runtime.

(** The order in which a range visits the entries: each number of
    [order] selects the next entry among those not yet visited. *)
Fixpoint permute {A : Type} (order : list nat) (l : list A) : list A :=
  match order with
  | [] => l
  | k :: order' =>
      match l !! (k mod length l) with
      | Some x => x :: permute order' (delete (k mod length l) l)
      | None => l
      end
  end.

(** [for k, v := range m] *)
Definition range {V : Type} (m : gmap UUID V) : IO (list (UUID * V)) := fun w =>
  match orders w with
  | [] => (map_to_list m, w)
  | o :: rest => (permute o (map_to_list m), set_orders rest w)
  end.

End runtime.

(** ** The collaborators whose code is outside the repository *)

(** [encoding/json] at the type [media.Media]. *)
Class Codec := {
  json_Marshal : Media -> bytes + error;
  json_Unmarshal : bytes -> Media + error;
}.

(** What [mimetype.Detect] returns: [String()] and [Extension()]. *)
Record MIME := mkMIME { mime_String : string; mime_Extension : string }.

(** [github.com/gabriel-vasile/mimetype] *)
Class Sniffer := {
  mimetype_Detect : bytes -> MIME;
}.

(** ** The repository *)

(** [type Repository struct]; the logger and the mutex carry no data.
    [items] is a Go map: [None] is the nil map. *)
Record Repository := mkRepository {
  id : string;
  path : string;
  lockPath : string;
  items : option (gmap UUID Media);
}.

Definition set_items (its : option (gmap UUID Media)) (r : Repository) : Repository :=
  mkRepository (id r) (path r) (lockPath r) its.

(** [maps.Values(m)] of [golang.org/x/exp/maps] *)
Definition maps_Values (m : option (gmap UUID Media)) : IO (list Media) :=
  match m with
  | None => ret []
  | Some m => es <- runtime.range m;; ret (es.*2)
  end.

(** [v[i], v[j] = v[j], v[i]]: both sides are read, then [v[i]] and
    [v[j]] are assigned in this order; an index out of range panics. *)
Definition swap {A : Type} (i j : nat) (v : list A) : option (list A) :=
  match v !! i, v !! j with
  | Some a, Some b => Some (<[j := a]> (<[i := b]> v))
  | _, _ => None
  end.

(** [O_WRONLY|O_CREATE] and [O_WRONLY|O_APPEND|O_CREATE] *)
Definition flag_create : OpenFlags := mkFlags false true false false.
Definition flag_append_create : OpenFlags := mkFlags true true false false.

Section Repo.
Context {codec : Codec} {sniffer : Sniffer}.

(** [func NewMemory(id string, logger *zap.Logger) *Repository] *)
Definition NewMemory (id : string) : Repository :=
  mkRepository id "" "" None.

(** The body of the loop [for s.Scan()] of [NewFile] for one line:
    the map after it, or the error the constructor returns. *)
Definition load_line (id path : string) (line : bytes)
    (items : gmap UUID Media) : IO (gmap UUID Media + error) :=
  match line with
  | [] => ret (inl items) (* skip empty lines *)
  | _ =>
      match json_Unmarshal line with
      | inr e => ret (inr (Wrap e "failed to read index file item"))
      | inl m =>
          match items !! ID m with
          | Some _ =>
              _ <- logger_Warn "duplicate item in index" id (uuid.String (ID m));;
              ret (inl items)
          | None =>
              let absPath :=
                if filepath.IsAbs (Path m) then Path m
                else filepath.Join [path; Path m] in
              st <- os.Stat absPath;;
              if match st with Some e => is_not_exist e | None => false end
              then
                _ <- logger_Warn "missing item in index" id (uuid.String (ID m));;
                ret (inl items)
              else
                ret (inl (<[ID m := mkMedia (ID m) (Format_ m) absPath (Meta m)]> items))
          end
      end
  end.

Fixpoint load_lines (id path : string) (lines : list bytes)
    (items : gmap UUID Media) : IO (gmap UUID Media + error) :=
  match lines with
  | [] => ret (inl items)
  | line :: rest =>
      r <- load_line id path line items;;
      match r with
      | inr e => ret (inr e)
      | inl items' => load_lines id path rest items'
      end
  end.

(** [func NewFile(id, path, lockPath string, logger *zap.Logger)],
    with the results [*Repository] and [error].  The deferred [f.Close()] stores its error in
    a variable of the inner block, so the error never leaves. *)
Definition NewFile (id path lockPath : string)
  : IO (option Repository * option error) :=
  pa <- (if filepath.IsAbs path then ret (inl path) else filepath_Abs path);;
  match pa with
  | inr e => ret (None, Some (Wrap e "failed to make repository path absolute"))
  | inl path =>
      me <- os.MkdirAll path;;
      match me with
      | Some e => ret (None, Some (Wrap e "failed to make repository directories"))
      | None =>
          st <- os.Stat lockPath;;
          match st with
          | Some _ => ret (Some (mkRepository id path lockPath None), None)
          | None =>
              fo <- os.Open lockPath;;
              match fo with
              | inr e => ret (None, Some (Wrap e "failed to open index file"))
              | inl f =>
                  sc <- bufio.Scan f;;
                  let '(lines, serr) := sc in
                  r <- load_lines id path lines ∅;;
                  _ <- os.Close f;;
                  match r, serr with
                  | inr e, _ => ret (None, Some e)
                  | inl _, Some e =>
                      ret (None, Some (Wrap e "failed to read index file"))
                  | inl items, None =>
                      ret (Some (mkRepository id path lockPath (Some items)), None)
                  end
              end
          end
      end
  end.

(** [func (r *Repository) Get(id uuid.UUID) *media.Media] *)
Definition Get (r : Repository) (id : UUID) : option Media :=
  match items r with
  | None => None
  | Some m => m !! id
  end.

(** [func (r *Repository) Items() []*media.Media] *)
Definition Items (r : Repository) : IO (list Media) :=
  maps_Values (items r).

(** [func (r *Repository) Random(n int) []*media.Media]; [None] is a
    panic of the shuffle callback. *)
Definition Random (r : Repository) (n : Z) : IO (option (list Media)) :=
  if (n <=? 0)%Z then ret (Some [])
  else
    v <- Items r;;
    sv <- rand.Shuffle (length v) swap v;;
    match sv with
    | None => ret None
    | Some v =>
        ret (Some (if (n <? Z.of_nat (length v))%Z then take (Z.to_nat n) v else v))
    end.

(** [func (r *Repository) write(f *os.File, m *media.Media) error] *)
Definition write (r : Repository) (f : os.File) (m : Media)
  : IO (os.File * option error) :=
  let path := match filepath.Rel (path r) (Path m) with
              | inl p => p
              | inr _ => Path m
              end in
  match json_Marshal (mkMedia (ID m) (Format_ m) path (Meta m)) with
  | inr e => ret (f, Some (Wrap e "failed to serialize index item"))
  | inl b =>
      res <- os.Write f (b ++ [NL]);;
      let '(f', e) := res in
      ret (f', match e with
               | Some e => Some (Wrap e "failed to write index item")
               | None => None
               end)
  end.

(** [for _, m := range r.items { if err = r.write(f, m); err != nil
    { return err } }] *)
Fixpoint save_loop (r : Repository) (f : os.File) (ms : list Media)
  : IO (os.File * option error) :=
  match ms with
  | [] => ret (f, None)
  | m :: rest =>
      res <- write r f m;;
      let '(f', e) := res in
      match e with
      | Some _ => ret (f', e)
      | None => save_loop r f' rest
      end
  end.

(** [func (r *Repository) save() (err error)].  The result is named, so
    the deferred [f.Close()] adds its error to the one returned. *)
Definition save (r : Repository) : IO (option error) :=
  if String.eqb (lockPath r) "" then ret None
  else
    fo <- os.OpenFile (lockPath r) flag_create;;
    match fo with
    | inr e => ret (Some (Wrap e "failed to open index file"))
    | inl f =>
        ms <- maps_Values (items r);;
        res <- save_loop r f ms;;
        let '(f', err) := res in
        err0 <- os.Close f';;
        match err0 with
        | Some e0 =>
            ret (multierr.Append err (Some (Wrap e0 "failed to close index file")))
        | None => ret err
        end
    end.

(** [func (r *Repository) saveSingle(m *media.Media) (err error)] *)
Definition saveSingle (r : Repository) (m : Media) : IO (option error) :=
  if String.eqb (lockPath r) "" then ret None
  else
    fo <- os.OpenFile (lockPath r) flag_append_create;;
    match fo with
    | inr e => ret (Some (Wrap e "failed to open index file"))
    | inl f =>
        res <- write r f m;;
        let '(f', err) := res in
        err0 <- os.Close f';;
        match err0 with
        | Some e0 =>
            ret (multierr.Append err (Some (Wrap e0 "failed to close index file")))
        | None => ret err
        end
    end.

(** [func (r *Repository) Add(m *media.Media) error]; the repository is
    returned as the call leaves it. *)
Definition Add (r : Repository) (m : Media) : IO (option error * Repository) :=
  match
    match items r with
    | None => inl ∅ (* make(map[uuid.UUID]*media.Media, 1) *)
    | Some its =>
        match its !! ID m with
        | Some _ => inr (ErrDuplicateID (uuid.String (ID m)) (id r))
        | None => inl its
        end
    end
  with
  | inr e => ret (Some e, r)
  | inl its =>
      let r' := set_items (Some (<[ID m := m]> its)) r in
      e <- saveSingle r' m;;
      ret (e, r')
  end.

(** [func (r *Repository) Remove(id uuid.UUID) error]; [delete] on the
    nil map does nothing. *)
Definition Remove (r : Repository) (id : UUID) : IO (option error * Repository) :=
  let r' := set_items (delete id <$> items r) r in
  e <- save r';;
  ret (e, r').

(** The [switch mime.String()] of [Create]. *)
Definition classify (mime : string) : Format :=
  if String.eqb mime "image/jpeg" || String.eqb mime "image/png"
  then FormatImage
  else if String.eqb mime "image/vnd.mozilla.apng" || String.eqb mime "image/gif"
          || String.eqb mime "image/webp"
  then FormatAnimatedImage
  else FormatUnknown.

(** [func (r *Repository) Create(b []byte, m meta.Metadata)], with
    the results [*media.Media] and [error].  The results are not named: what the deferred
    [f.Close()] assigns to [err] comes after the results are set and is
    lost. *)
Definition Create (r : Repository) (b : bytes) (m : option Metadata)
  : IO (option Media * option error * Repository) :=
  if String.eqb (path r) "" then ret (None, Some ErrUnsupported, r)
  else
    id <- uuid_New;;
    let mime := mimetype_Detect b in
    let path := filepath.Join [path r; uuid.String id +:+ mime_Extension mime] in
    fo <- os.OpenFile path flag_create;;
    match fo with
    | inr e => ret (None, Some (Wrap e "failed to open file"), r)
    | inl f =>
        res <- os.Write f b;;
        let '(f', werr) := res in
        match werr with
        | Some e =>
            _ <- os.Close f';;
            ret (None, Some (Wrap e "failed to write file"), r)
        | None =>
            let m0 := mkMedia id (classify (mime_String mime)) path m in
            ar <- Add r m0;;
            let '(err, r') := ar in
            _ <- os.Close f';;
            ret (Some m0, err, r')
        end
    end.

End Repo.

(** [func (r *Repository) ID() string], [Path() string] and
    [LockPath() string] *)
Definition Repository_ID (r : Repository) : string := id r.
Definition Repository_Path (r : Repository) : string := path r.
Definition Repository_LockPath (r : Repository) : string := lockPath r.

(** [func (r *Repository) Close() error] *)
Definition Repository_Close (r : Repository) : option error := None.

(** ** The server: [PostRepo] and its helpers

    The generated package [v1], package [api] and [encoding/base64] are
    outside the sources.  What [PostRepo] takes from them is gathered in
    the class [Wire]; the shapes of the request and of the responses are
    the fields and constructors the function uses. *)

(** [v1.MediaFormat]: [v1.Image], [v1.AnimatedImage], [v1.Unknown] *)
Inductive WireFormat := WireImage | WireAnimatedImage | WireUnknown.

(** The [Type] of a [v1.Error]: [v1.NotFound], [v1.BadRequest] *)
Inductive WireErrorType := WireNotFound | WireBadRequest.

(** [v1.Error{Type, Description}] *)
Record WireError := mkWireError {
  we_Type : WireErrorType;
  we_Description : string;
}.

(** What a type switch can find in an [interface{}] of the wire:
    a [v1.GenericMetadata], a [v1.AnimeMetadata], or something else.  [S]
    is the type of their fields. *)
Inductive WireValue (S : Type) :=
| WireGeneric (Source Artist ArtistLink : S)
| WireAnime (Name : S)
| WireOther.

Arguments WireGeneric {S} _ _ _.
Arguments WireAnime {S} _.
Arguments WireOther {S}.

Class Wire := {
  OptString : Type;                                 (* a field of the wire metadata *)
  api_MakeString : OptString -> option string;      (* api.MakeString *)
  api_MakeOptString : option string -> OptString;   (* api.MakeOptString *)
  MediaMeta : Type;                                 (* v1.Media_Meta *)
  MediaMeta_zero : MediaMeta;                       (* &v1.Media_Meta{} *)
  (* func (t Media_Meta) ValueByDiscriminator() (interface{}, error) *)
  ValueByDiscriminator : MediaMeta -> WireValue OptString + error;
  (* func (t *Media_Meta) FromGenericMetadata(v GenericMetadata) error *)
  FromGenericMetadata : MediaMeta -> OptString -> OptString -> OptString
                        -> MediaMeta * option error;
  (* func (t *Media_Meta) FromAnimeMetadata(v AnimeMetadata) error *)
  FromAnimeMetadata : MediaMeta -> OptString -> MediaMeta * option error;
  (* base64.StdEncoding.DecodeString *)
  base64_DecodeString : string -> bytes + error;
}.

(** [func wrapFormat(f media.Format) v1.MediaFormat] *)
Definition wrapFormat (f : Format) : WireFormat :=
  match f with
  | FormatImage => WireImage
  | FormatAnimatedImage => WireAnimatedImage
  | _ => WireUnknown
  end.

Section Server.
Context {codec : Codec} {sniffer : Sniffer} {wire : Wire}.

(** [func unwrapMetadata(v interface{}) meta.Metadata] *)
Definition unwrapMetadata (v : WireValue OptString) : option Metadata :=
  match v with
  | WireGeneric s a l =>
      Some (GenericMetadata (api_MakeString s) (api_MakeString a) (api_MakeString l))
  | WireAnime n => Some (AnimeMetadata (api_MakeString n))
  | WireOther => None
  end.

(** [func wrapMetadata(v meta.Metadata) interface{}] *)
Definition wrapMetadata (v : option Metadata) : option (WireValue OptString) :=
  match v with
  | Some (GenericMetadata s a l) =>
      Some (WireGeneric (api_MakeOptString s) (api_MakeOptString a) (api_MakeOptString l))
  | Some (AnimeMetadata n) => Some (WireAnime (api_MakeOptString n))
  | None => None
  end.

(** [v1.PostRepoRequestObject]: [request.Repo], [request.Body.Data] and
    [request.Body.Meta], a pointer. *)
Record PostRepoRequest := mkPostRepoRequest {
  rq_Repo : string;
  rq_Data : string;
  rq_Meta : option MediaMeta;
}.

(** [v1.Media{Format, Id, Meta}] *)
Record WireMedia := mkWireMedia {
  wm_Format : WireFormat;
  wm_Id : UUID;
  wm_Meta : MediaMeta;
}.

(** [v1.PostRepo400JSONResponse] and [v1.PostRepo200JSONResponse] *)
Inductive PostRepoResponse :=
| PostRepo400 (e : WireError)
| PostRepo200 (m : WireMedia).

(** How a call of [PostRepo] ends: with its two results, or in the panic
    of a nil pointer. *)
Inductive Outcome :=
| Returns (response : option PostRepoResponse) (err : option error)
| Panics.

(** [func (s *Server) PostRepo(_ context.Context, request
    v1.PostRepoRequestObject)].  [repos] is [s.repos]; it holds pointers,
    so that what [Create] does to the repository shows in the map. *)
Definition PostRepo (repos : gmap string Repository) (request : PostRepoRequest)
  : IO (Outcome * gmap string Repository) :=
  match repos !! rq_Repo request with
  | None =>
      ret (Returns (Some (PostRepo400 (mkWireError WireNotFound "unknown repository")))
                   None, repos)
  | Some r =>
      match
        match rq_Meta request with
        | None => inl None
        | Some mm =>
            match ValueByDiscriminator mm with
            | inr e => inr e
            | inl m0 => inl (unwrapMetadata m0)
            end
        end
      with
      | inr e => ret (Returns None (Some e), repos)
      | inl m =>
          match base64_DecodeString (rq_Data request) with
          | inr _ =>
              ret (Returns (Some (PostRepo400
                                    (mkWireError WireBadRequest "failed to decode data")))
                           None, repos)
          | inl d =>
              cr <- Create r d m;;
              let '(m0, err, r') := cr in
              let repos' := <[rq_Repo request := r']> repos in
              match err, m0 with
              | Some e, _ => ret (Returns None (Some e), repos')
              | None, None => ret (Panics, repos') (* m0.Meta on a nil m0 *)
              | None, Some m0 =>
                  let '(m1, err) :=
                    match wrapMetadata (Meta m0) with
                    | Some (WireGeneric s a l) => FromGenericMetadata MediaMeta_zero s a l
                    | Some (WireAnime n) => FromAnimeMetadata MediaMeta_zero n
                    | _ => (MediaMeta_zero, None)
                    end in
                  match err with
                  | Some e => ret (Returns None (Some e), repos')
                  | None =>
                      ret (Returns (Some (PostRepo200
                                            (mkWireMedia (wrapFormat (Format_ m0))
                                                         (ID m0) m1)))
                                   None, repos')
                  end
              end
          end
      end
  end.

End Server.

(** ** Stand-ins for the collaborators, for the worked examples

    The theorems below hold for every codec and every sniffer.  The
    examples need concrete ones: a codec that writes a record as the line
    [<uuid> <format> <path>], and a sniffer that knows three signatures. *)
Module Example.

Definition format_digit (f : Format) : string :=
  match f with
  | FormatUnknown => "0"
  | FormatImage => "1"
  | FormatAnimatedImage => "2"
  end.

Definition hex_value (c : ascii) : option N :=
  let n := N_of_ascii c in
  if (48 <=? n)%N && (n <=? 57)%N then Some (n - 48)%N
  else if (97 <=? n)%N && (n <=? 102)%N then Some (n - 87)%N
  else None.

(** The number written by the hex digits of [s]; dashes are passed over. *)
Fixpoint parse_hex (acc : N) (s : string) : option N :=
  match s with
  | EmptyString => Some acc
  | String c s' =>
      if Ascii.eqb c "-" then parse_hex acc s'
      else match hex_value c with
           | Some d => parse_hex (acc * 16 + d)%N s'
           | None => None
           end
  end.

Definition parse_format (c : ascii) : option Format :=
  if Ascii.eqb c "0" then Some FormatUnknown
  else if Ascii.eqb c "1" then Some FormatImage
  else if Ascii.eqb c "2" then Some FormatAnimatedImage
  else None.

Definition encode (m : Media) : bytes + error :=
  match Meta m with
  | Some _ => inr (CodecError "metadata is not supported")
  | None =>
      inl (bytes_of_string
             (uuid.String (ID m) +:+ " " +:+ format_digit (Format_ m)
                +:+ " " +:+ Path m))
  end.

Definition decode (line : bytes) : Media + error :=
  let s := string_of_list_byte line in
  match parse_hex 0 (String.substring 0 36 s),
        String.get 36 s, String.get 37 s, String.get 38 s with
  | Some u, Some sp1, Some d, Some sp2 =>
      match parse_format d with
      | Some f =>
          if Ascii.eqb sp1 " " && Ascii.eqb sp2 " " && Nat.leb 39 (String.length s)
          then inl (mkMedia u f (String.substring 39 (String.length s - 39) s) None)
          else inr (CodecError "malformed record")
      | None => inr (CodecError "malformed record")
      end
  | _, _, _, _ => inr (CodecError "malformed record")
  end.

#[export] Instance line_codec : Codec :=
  {| json_Marshal := encode; json_Unmarshal := decode |}.

Definition has_prefix (sig data : bytes) : bool :=
  bool_decide (take (length sig) data = sig).

Definition detect (b : bytes) : MIME :=
  if has_prefix [Byte.xff; Byte.xd8; Byte.xff] b then mkMIME "image/jpeg" ".jpg"
  else if has_prefix (bytes_of_string "GIF8") b then mkMIME "image/gif" ".gif"
  else if has_prefix (Byte.x89 :: bytes_of_string "PNG") b then mkMIME "image/png" ".png"
  else mkMIME "application/octet-stream" "".

#[export] Instance magic_sniffer : Sniffer := {| mimetype_Detect := detect |}.

(** The value of a digit of the standard base64 alphabet. *)
Definition base64_value (c : ascii) : option N :=
  let n := N_of_ascii c in
  if (65 <=? n)%N && (n <=? 90)%N then Some (n - 65)%N
  else if (97 <=? n)%N && (n <=? 122)%N then Some (n - 71)%N
  else if (48 <=? n)%N && (n <=? 57)%N then Some (n + 4)%N
  else if (n =? 43)%N then Some 62%N
  else if (n =? 47)%N then Some 63%N
  else None.

Definition low_byte (n : N) : byte :=
  default Byte.x00 (Byte.of_N (n mod 256)%N).

(** Padded base64: groups of four digits, the last one with one or two
    [=] signs where the data ends early. *)
Fixpoint base64_decode (s : string) : option bytes :=
  match s with
  | EmptyString => Some []
  | String a (String b (String c (String d s'))) =>
      match base64_value a, base64_value b with
      | Some x, Some y =>
          let b1 := low_byte (x * 4 + y / 16) in
          match base64_value c, base64_value d with
          | Some z, Some t =>
              match base64_decode s' with
              | Some rest =>
                  Some (b1 :: low_byte (y * 16 + z / 4) :: low_byte (z * 64 + t) :: rest)
              | None => None
              end
          | Some z, None =>
              if Ascii.eqb d "=" && String.eqb s' EmptyString
              then Some [b1; low_byte (y * 16 + z / 4)]
              else None
          | None, _ =>
              if Ascii.eqb c "=" && Ascii.eqb d "=" && String.eqb s' EmptyString
              then Some [b1]
              else None
          end
      | _, _ => None
      end
  | _ => None
  end.

(** A wire whose metadata is the value itself, absent in the zero value. *)
#[export] Instance plain_wire : Wire := {|
  OptString := option string;
  api_MakeString := fun s => s;
  api_MakeOptString := fun s => s;
  MediaMeta := option (WireValue (option string));
  MediaMeta_zero := None;
  ValueByDiscriminator := fun mm =>
    match mm with
    | Some v => inl v
    | None => inr (CodecError "unknown discriminator")
    end;
  FromGenericMetadata := fun _ s a l => (Some (WireGeneric s a l), None);
  FromAnimeMetadata := fun _ n => (Some (WireAnime n), None);
  base64_DecodeString := fun s =>
    match base64_decode s with
    | Some b => inl b
    | None => inr (CodecError "illegal base64 data")
    end;
|}.

(** A world with the directory [/srv] and nothing else, in which no
    system call fails. *)
Definition w0 : World :=
  mkWorld ∅ {[ "/srv" ]} "/home" [] [] [] [] [1%N; 2%N; 3%N] [].

Definition A : Media := mkMedia 10%N FormatImage "/srv/a.png" None.
Definition B : Media := mkMedia 11%N FormatAnimatedImage "/srv/b.gif" None.

End Example.

Import Example.

(** ** What the properties are stated with *)

(** The destination [root/<id><extension>] of the asset. *)
Definition destination {sniffer : Sniffer} (r : Repository) (u : UUID) (b : bytes)
  : string :=
  filepath.Join [path r; uuid.String u +:+ mime_Extension (mimetype_Detect b)].

(** The entity [Create] builds from the id and the payload. *)
Definition entity {sniffer : Sniffer} (r : Repository) (u : UUID) (b : bytes)
    (m : option Metadata) : Media :=
  mkMedia u (classify (mime_String (mimetype_Detect b))) (destination r u b) m.

(** A call of the repository by its owner. *)
Inductive Call :=
| CallAdd (m : Media)
| CallRemove (k : UUID)
| CallCreate (b : bytes) (m : option Metadata)
| CallGet (k : UUID)
| CallItems
| CallRandom (n : Z).

(** The repository after one call. *)
Definition call {codec : Codec} {sniffer : Sniffer} (c : Call) (r : Repository)
  : IO Repository :=
  match c with
  | CallAdd m => x <- Add r m;; ret x.2
  | CallRemove k => x <- Remove r k;; ret x.2
  | CallCreate b m => x <- Create r b m;; ret x.2
  | CallGet k => ret r
  | CallItems => _ <- Items r;; ret r
  | CallRandom n => _ <- Random r n;; ret r
  end.

(** The repository after a sequence of calls. *)
Fixpoint calls {codec : Codec} {sniffer : Sniffer} (cs : list Call) (r : Repository)
  : IO Repository :=
  match cs with
  | [] => ret r
  | c :: rest => r' <- call c r;; calls rest r'
  end.

(** The entries of the map: the nil map has none. *)
Definition entries (r : Repository) : list (UUID * Media) :=
  map_to_list (default ∅ (items r)).

(** Every entity is stored under its own id.  The constructors establish
    this and every operation keeps it. *)
Definition keyed (r : Repository) : Prop :=
  forall k m, Get r k = Some m -> ID m = k.

(** The same for a map. *)
Definition keyed_map (its : gmap UUID Media) : Prop :=
  forall k m, its !! k = Some m -> ID m = k.

(** A list of entries of the map taken at pairwise distinct ids. *)
Definition drawn (r : Repository) (es : list (UUID * Media)) : Prop :=
  NoDup es.*1 /\ forall k m, (k, m) ∈ es -> Get r k = Some m.

(** The line [write] puts into the index for [m]. *)
Definition index_line {codec : Codec} (r : Repository) (m : Media) : bytes + error :=
  let path := match filepath.Rel (path r) (Path m) with
              | inl p => p
              | inr _ => Path m
              end in
  match json_Marshal (mkMedia (ID m) (Format_ m) path (Meta m)) with
  | inl b => inl (b ++ [NL])
  | inr e => inr e
  end.

(** The lines [save] writes for the entities [ms], when all of them can be
    serialized. *)
Fixpoint index_lines {codec : Codec} (r : Repository) (ms : list Media) : option bytes :=
  match ms with
  | [] => Some []
  | m :: rest =>
      match index_line r m, index_lines r rest with
      | inl l, Some ls => Some (l ++ ls)
      | _, _ => None
      end
  end.

(** One more system call in the trace. *)
Definition logged (ev : Syscall) (w : World) : World :=
  set_trace (ev :: trace w) w.

(** Two worlds with the same files, directories and working directory. *)
Definition same_disk (w w' : World) : Prop :=
  files w' = files w /\ dirs w' = dirs w /\ cwd w' = cwd w.

(** The path under which a record of the index is kept in memory. *)
Definition resolved (root : string) (m : Media) : Media :=
  mkMedia (ID m) (Format_ m)
          (if filepath.IsAbs (Path m) then Path m else filepath.Join [root; Path m])
          (Meta m).

Arguments resolved : simpl never.

(** What the decoder makes of the lines that are not empty. *)
Definition decoded {codec : Codec} (lines : list bytes) : list (Media + error) :=
  json_Unmarshal <$> filter (fun l => l <> []) lines.

(** The loop of [NewFile] on decoded records, when existence on the disk
    is the test [ex]. *)
Fixpoint load_records (ex : string -> bool) (root : string)
    (recs : list (Media + error)) (acc : gmap UUID Media)
  : gmap UUID Media + error :=
  match recs with
  | [] => inl acc
  | inr e :: _ => inr (Wrap e "failed to read index file item")
  | inl m :: rest =>
      match acc !! ID m with
      | Some _ => load_records ex root rest acc
      | None =>
          if ex (Path (resolved root m))
          then load_records ex root rest (<[ID m := resolved root m]> acc)
          else load_records ex root rest acc
      end
  end.

(** The records that are on the disk, with their paths in memory. *)
Definition survivors (ex : string -> bool) (root : string) (ms : list Media)
  : list Media :=
  filter (fun m => ex (Path m) = true) (resolved root <$> ms).

(** The first entity of the list with the id [k]. *)
Definition first_with (k : UUID) (l : list Media) : option Media :=
  head (filter (fun m => ID m = k) l).

(** Between [w] and [w'] no system call failed: the entries of the fault
    list that were used up are all [None]. *)
Definition unfailed (w w' : World) : Prop :=
  exists n, faults w = replicate n None ++ faults w'.

(** The record [write] serializes for [m]: the path is relative to the
    root when [filepath.Rel] can make it so. *)
Definition index_record (r : Repository) (m : Media) : Media :=
  mkMedia (ID m) (Format_ m)
          (match filepath.Rel (path r) (Path m) with
           | inl p => p
           | inr _ => Path m
           end)
          (Meta m).

(** The root [NewFile] gives the repository. *)
Definition root_of (w : World) (path : string) : string :=
  if filepath.IsAbs path then path else filepath.Join [cwd w; path].

Arguments root_of : simpl never.

(** A line the scanner gives back as it was written: not empty, without
    a line feed, not ending in a carriage return, and shorter than the
    buffer of the scanner. *)
Definition line_ok (b : bytes) : Prop :=
  b <> [] /\ (NL ∉ b) /\ bufio.dropCR b = b
  /\ (N.of_nat (length b) < bufio.MaxScanTokenSize)%N.

(** An entity that comes back from its index line: the codec decodes what
    it encoded, the path that was written leads back to the path in
    memory, and the asset is on the disk. *)
Definition restorable {codec : Codec} (r : Repository) (w : World) (m : Media) : Prop :=
  (exists b, json_Marshal (index_record r m) = inl b /\ line_ok b
             /\ json_Unmarshal b = inl (index_record r m))
  /\ resolved (path r) (index_record r m) = m
  /\ os.exists_ w (Path m) = true.

(** ** Repositories and worlds of the worked examples *)

(** A repository on [/srv] with the index [/srv/index]. *)
Definition srv : Repository := mkRepository "r" "/srv" "/srv/index" None.

(** Three payloads: a JPEG signature, a GIF signature, plain text. *)
Definition jpeg_payload : bytes := [Byte.xff; Byte.xd8; Byte.xff; Byte.xe0].
Definition gif_payload : bytes := bytes_of_string "GIF89a".
Definition text_payload : bytes := bytes_of_string "hello".

(** A server with [srv] and a memory repository, and three uploads: of
    [gif_payload] to each of them, and of something that is not base64. *)
Definition served : gmap string Repository :=
  {[ "r" := srv; "mem" := NewMemory "mem" ]}.
Definition upload_gif : PostRepoRequest := mkPostRepoRequest "r" "R0lGODlh" None.
Definition upload_mem : PostRepoRequest := mkPostRepoRequest "mem" "R0lGODlh" None.
Definition upload_junk : PostRepoRequest := mkPostRepoRequest "r" "?" None.

(** A third entity, and a memory repository that has been given all three. *)
Definition C : Media := mkMedia 12%N FormatUnknown "/srv/c.bin" None.

Definition three : Repository :=
  (calls [CallAdd A; CallAdd B; CallAdd C] (NewMemory "mem") w0).1.

(** A world that dictates a map order and three draws of the generator. *)
Definition dice : World := set_random [5; 3; 1] (set_orders [[2; 0]] w0).

(** In the worlds below the generator gives the id 1, so the destination
    of a GIF payload is [gif_1]. *)
Definition gif_1 : string := "/srv/00000000-0000-0000-0000-000000000001.gif".

(** The destination is already there. *)
Definition occupied : World :=
  set_files {[ gif_1 := bytes_of_string "an older and longer file" ]} w0.

(** The open of the asset fails. *)
Definition open_fails : World := set_faults [Some (mkFault EACCES 0)] w0.

(** The write of the asset fails after three bytes. *)
Definition write_fails : World := set_faults [None; Some (mkFault ENOSPC 3)] w0.

(** Everything works up to the close of the asset, the sixth system call. *)
Definition close_fails : World :=
  set_faults [None; None; None; None; None; Some (mkFault EIO 0)] w0.

(** Three calls that work, and a failure that is never reached. *)
Definition later_failure : World :=
  set_faults [None; None; None; Some (mkFault EIO 0)] w0.

(** The asset is opened and written, then the index cannot be opened. *)
Definition index_unwritable : World :=
  set_faults [None; None; Some (mkFault EACCES 0)] w0.

(** The assets of [A] and [B] are on the disk, the index is not there yet. *)
Definition stocked : World :=
  set_files {[ "/srv/a.png" := bytes_of_string "PNG"; "/srv/b.gif" := gif_payload ]} w0.

(** An index with an empty line, a record that repeats an id, a record
    whose file is gone and a record with an absolute path; what its lines
    decode to; and a world that has it. *)
Definition index_text : bytes :=
  bytes_of_string "00000000-0000-0000-0000-00000000000a 1 a.png" ++ [NL]
  ++ [NL]
  ++ bytes_of_string "00000000-0000-0000-0000-00000000000a 0 b.gif" ++ [NL]
  ++ bytes_of_string "00000000-0000-0000-0000-00000000000c 0 gone.bin" ++ [NL]
  ++ bytes_of_string "00000000-0000-0000-0000-00000000000b 2 /srv/b.gif" ++ [NL].

Definition index_records : list Media :=
  [ mkMedia 10%N FormatImage "a.png" None;
    mkMedia 10%N FormatUnknown "b.gif" None;
    mkMedia 12%N FormatUnknown "gone.bin" None;
    mkMedia 11%N FormatAnimatedImage "/srv/b.gif" None ].

Definition indexed : World :=
  set_files (<["/srv/index" := index_text]> (files stocked)) w0.

(** An index whose second line is not a record. *)
Definition damaged : World :=
  set_files (<["/srv/index" :=
                 bytes_of_string "00000000-0000-0000-0000-00000000000a 1 a.png" ++ [NL]
                 ++ bytes_of_string "not a record" ++ [NL]]> (files stocked)) w0.

(** * Properties *)

(** ** Running the monad *)

Lemma bind_run {A B : Type} (m : IO A) (k : A -> IO B) (w : World) :
  bind m k w = k (m w).1 (m w).2.
Proof. unfold bind. by destruct (m w). Qed.

Lemma ret_run {A : Type} (a : A) (w : World) : ret a w = (a, w).
Proof. reflexivity. Qed.

(** ** The writers do nothing without an index path *)

Section Writers.
Context {codec : Codec}.

Lemma save_memory (r : Repository) (w : World) :
  lockPath r = "" -> save r w = (None, w).
Proof. intros E. unfold save. by rewrite E. Qed.

Lemma saveSingle_memory (r : Repository) (m : Media) (w : World) :
  lockPath r = "" -> saveSingle r m w = (None, w).
Proof. intros E. unfold saveSingle. by rewrite E. Qed.

(** [Add] either rejects a known id and changes nothing, or stores the
    entity under its id and appends to the index. *)
Lemma Add_cases (r : Repository) (m : Media) (w : World) :
  match Get r (ID m) with
  | Some _ =>
      Add r m w = (Some (ErrDuplicateID (uuid.String (ID m)) (id r)), r, w)
  | None =>
      let r' := set_items (Some (<[ID m := m]> (default ∅ (items r)))) r in
      Add r m w = ((saveSingle r' m w).1, r', (saveSingle r' m w).2)
  end.
Proof.
  unfold Get, Add. destruct (items r) as [its|]; simpl.
  - destruct (its !! ID m); [done|]. by rewrite bind_run.
  - by rewrite bind_run.
Qed.

Lemma Remove_run (r : Repository) (k : UUID) (w : World) :
  let r' := set_items (delete k <$> items r) r in
  Remove r k w = ((save r' w).1, r', (save r' w).2).
Proof. unfold Remove. by rewrite bind_run. Qed.

Lemma Get_set_items (r : Repository) (its : gmap UUID Media) (k : UUID) :
  Get (set_items (Some its) r) k = its !! k.
Proof. reflexivity. Qed.

Lemma Get_Add (r r' : Repository) (m : Media) (w w' : World) (e : option error) (k : UUID) :
  Add r m w = (e, r', w') ->
  Get r' k = match Get r (ID m) with
             | Some _ => Get r k
             | None => if decide (k = ID m) then Some m else Get r k
             end.
Proof.
  intros E. pose proof (Add_cases r m w) as C.
  destruct (Get r (ID m)) as [x|] eqn:G.
  - rewrite C in E. by inversion E.
  - simpl in C. rewrite C in E. inversion E; subst. rewrite Get_set_items.
    destruct (decide (k = ID m)) as [->|Hne].
    + by rewrite lookup_insert_eq.
    + rewrite lookup_insert_ne by done. unfold Get.
      by destruct (items r).
Qed.

Lemma Get_Remove (r r' : Repository) (k j : UUID) (w w' : World) (e : option error) :
  Remove r k w = (e, r', w') ->
  Get r' j = if decide (j = k) then None else Get r j.
Proof.
  intros E. rewrite Remove_run in E. inversion E; subst. clear E.
  unfold Get, set_items; simpl. destruct (items r) as [its|]; simpl.
  - destruct (decide (j = k)) as [->|Hne].
    + by rewrite lookup_delete_eq.
    + by rewrite lookup_delete_ne.
  - by destruct (decide (j = k)).
Qed.

End Writers.

(** ** Adding an id twice *)

(** C2. When the id of [m] is already in the map, [Add m] returns the
    [ErrDuplicateID] error with the id's text and the repository's
    identifier; the repository and the whole world, hence [Items()] and the
    index file, are as before. *)
Theorem Add_duplicate_rejected {codec : Codec} (r : Repository) (m x : Media) (w : World) :
  Get r (ID m) = Some x ->
  exists r' w',
    Add r m w = (Some (ErrDuplicateID (uuid.String (ID m)) (id r)), r', w')
    /\ r' = r /\ w' = w
    /\ (forall v, Items r' v = Items r v)
    /\ files w' = files w /\ trace w' = trace w.
Proof.
  intros G. exists r, w. pose proof (Add_cases r m w) as C.
  rewrite G in C. by rewrite C.
Qed.

Lemma Add_duplicate_rejected_witness :
  exists r' w',
    Add (mkRepository "r" "/srv" "/srv/index" (Some {[ ID A := A ]}))
        (mkMedia (ID A) FormatUnknown "/srv/other" None) w0
    = (Some (ErrDuplicateID "00000000-0000-0000-0000-00000000000a" "r"), r', w')
    /\ r' = mkRepository "r" "/srv" "/srv/index" (Some {[ ID A := A ]})
    /\ w' = w0
    /\ (forall v, Items r' v
                  = Items (mkRepository "r" "/srv" "/srv/index" (Some {[ ID A := A ]})) v)
    /\ files w' = files w0 /\ trace w' = trace w0.
Proof.
  apply (Add_duplicate_rejected
           (mkRepository "r" "/srv" "/srv/index" (Some {[ ID A := A ]}))
           (mkMedia (ID A) FormatUnknown "/srv/other" None) A w0).
  reflexivity.
Defined.

(** ** [Create], step by step *)

Section CreateSteps.
Context {codec : Codec} {sniffer : Sniffer}.

Lemma Create_memory (r : Repository) (b : bytes) (m : option Metadata) (w : World) :
  path r = "" -> Create r b m w = (None, Some ErrUnsupported, r, w).
Proof. intros E. unfold Create. by rewrite E. Qed.

Lemma Create_run (r : Repository) (b : bytes) (m : option Metadata) (w : World) :
  path r <> "" ->
  let u := (uuid_New w).1 in
  let w1 := (uuid_New w).2 in
  Create r b m w =
    match os.OpenFile (destination r u b) flag_create w1 with
    | (inr e, w2) => (None, Some (Wrap e "failed to open file"), r, w2)
    | (inl f, w2) =>
        match os.Write f b w2 with
        | (f', Some e, w3) =>
            (None, Some (Wrap e "failed to write file"), r, (os.Close f' w3).2)
        | (f', None, w3) =>
            match Add r (entity r u b m) w3 with
            | (err, r', w4) => (Some (entity r u b m), err, r', (os.Close f' w4).2)
            end
        end
    end.
Proof.
  intros Hp. apply String.eqb_neq in Hp. unfold Create. rewrite Hp.
  rewrite bind_run. simpl. unfold destination, entity.
  rewrite bind_run.
  destruct (os.OpenFile _ flag_create (uuid_New w).2) as [[f|e] w2]; simpl; [|done].
  rewrite bind_run. destruct (os.Write f b w2) as [[f' [e|]] w3]; simpl.
  - by rewrite bind_run.
  - rewrite bind_run.
    destruct (Add r _ w3) as [[err r'] w4]; simpl. by rewrite bind_run.
Qed.

(** Whatever [Create] does to the repository, [Add] did it. *)
Lemma Create_repository (r r' : Repository) (b : bytes) (m : option Metadata)
    (w w' : World) (x : option Media) (e : option error) :
  Create r b m w = (x, e, r', w') ->
  r' = r \/ exists m0 w3 w4 err, Add r m0 w3 = (err, r', w4).
Proof.
  intros E. destruct (decide (path r = "")) as [Hp|Hp].
  - rewrite Create_memory in E by done. left. by inversion E.
  - rewrite Create_run in E by done.
    destruct (os.OpenFile _ _ _) as [[f|e0] w2]; [|left; by inversion E].
    destruct (os.Write f b w2) as [[f' [e0|]] w3]; [left; by inversion E|].
    destruct (Add r _ w3) as [[err r''] w4] eqn:EA.
    right. inversion E; subst. eauto.
Qed.

Lemma classify_image (mime : string) :
  mime = "image/jpeg" \/ mime = "image/png" -> classify mime = FormatImage.
Proof. by intros [-> | ->]. Qed.

Lemma classify_animated (mime : string) :
  mime = "image/vnd.mozilla.apng" \/ mime = "image/gif" \/ mime = "image/webp" ->
  classify mime = FormatAnimatedImage.
Proof. by intros [-> | [-> | ->]]. Qed.

Lemma classify_other (mime : string) :
  mime <> "image/jpeg" -> mime <> "image/png" ->
  mime <> "image/vnd.mozilla.apng" -> mime <> "image/gif" -> mime <> "image/webp" ->
  classify mime = FormatUnknown.
Proof.
  intros H1 H2 H3 H4 H5. unfold classify.
  apply String.eqb_neq in H1, H2, H3, H4, H5.
  by rewrite H1, H2, H3, H4, H5.
Qed.

(** When [Create] returns an entity, it is the one built from the id the
    generator gave and from the payload. *)
Lemma Create_entity (r r' : Repository) (b : bytes) (m : option Metadata)
    (w w' : World) (m0 : Media) (e : option error) :
  Create r b m w = (Some m0, e, r', w') -> m0 = entity r (uuid_New w).1 b m.
Proof.
  intros E. destruct (decide (path r = "")) as [Hp|Hp].
  - rewrite Create_memory in E by done. by inversion E.
  - rewrite Create_run in E by done.
    destruct (os.OpenFile _ _ _) as [[f|e0] w2]; [|by inversion E].
    destruct (os.Write f b w2) as [[f' [e0|]] w3]; [by inversion E|].
    destruct (Add r _ w3) as [[err r''] w4]. by inversion E.
Qed.

End CreateSteps.

(** ** The format of a created entity *)

(** C7. The entity [Create] returns has the format decided by the detected
    MIME string: [image/jpeg] and [image/png] give [Image];
    [image/vnd.mozilla.apng], [image/gif] and [image/webp] give
    [AnimatedImage]; every other string gives [Unknown]. *)
Theorem Create_format {codec : Codec} {sniffer : Sniffer}
    (r r' : Repository) (b : bytes) (m : option Metadata) (w w' : World)
    (m0 : Media) (e : option error) :
  Create r b m w = (Some m0, e, r', w') ->
  let mime := mime_String (mimetype_Detect b) in
  (mime = "image/jpeg" \/ mime = "image/png" -> Format_ m0 = FormatImage)
  /\ (mime = "image/vnd.mozilla.apng" \/ mime = "image/gif" \/ mime = "image/webp" ->
      Format_ m0 = FormatAnimatedImage)
  /\ (mime <> "image/jpeg" -> mime <> "image/png" ->
      mime <> "image/vnd.mozilla.apng" -> mime <> "image/gif" ->
      mime <> "image/webp" -> Format_ m0 = FormatUnknown).
Proof.
  intros E mime. apply Create_entity in E. subst m0. simpl. fold mime.
  split; [apply classify_image|split; [apply classify_animated|apply classify_other]].
Qed.

Lemma Create_format_witness :
  Format_ (entity srv 1%N jpeg_payload None) = FormatImage
  /\ Format_ (entity srv 1%N gif_payload None) = FormatAnimatedImage
  /\ Format_ (entity srv 1%N text_payload None) = FormatUnknown.
Proof.
  split; [|split].
  - refine (proj1 (Create_format srv _ jpeg_payload None w0 _ _ _ _) _);
      [vm_compute; reflexivity | left; reflexivity].
  - refine (proj1 (proj2 (Create_format srv _ gif_payload None w0 _ _ _ _)) _);
      [vm_compute; reflexivity | right; left; reflexivity].
  - refine (proj2 (proj2 (Create_format srv _ text_payload None w0 _ _ _ _)) _ _ _ _ _);
      [vm_compute; reflexivity | discriminate ..].
Defined.

(** ** [Create] when [Add] fails *)

(** C9. When the asset file was opened and written and the [Add] that
    follows fails, [Create] returns the entity it built (the generated id,
    the classified format, the destination path and the metadata)
    together with the error of [Add]. *)
Theorem Create_entity_with_Add_error {codec : Codec} {sniffer : Sniffer}
    (r r' : Repository) (b : bytes) (m : option Metadata)
    (w w2 w3 w4 : World) (f f' : os.File) (e : error) :
  path r <> "" ->
  let u := (uuid_New w).1 in
  let m0 := mkMedia u (classify (mime_String (mimetype_Detect b)))
                    (filepath.Join [path r; uuid.String u +:+ mime_Extension (mimetype_Detect b)])
                    m in
  os.OpenFile (Path m0) flag_create (uuid_New w).2 = (inl f, w2) ->
  os.Write f b w2 = (f', None, w3) ->
  Add r m0 w3 = (Some e, r', w4) ->
  Create r b m w = (Some m0, Some e, r', (os.Close f' w4).2).
Proof.
  intros Hp u m0 EO EW EA. rewrite Create_run by done.
  fold u. change (destination r u b) with (Path m0). rewrite EO, EW.
  change (entity r u b m) with m0. by rewrite EA.
Qed.

Lemma Create_entity_with_Add_error_witness :
  exists r' w',
    Create (set_items (Some ∅) srv) gif_payload None index_unwritable
    = (Some (mkMedia 1%N FormatAnimatedImage
                     "/srv/00000000-0000-0000-0000-000000000001.gif" None),
       Some (Wrap (PathError "open" "/srv/index" EACCES) "failed to open index file"),
       r', w').
Proof.
  eexists _, _.
  refine (Create_entity_with_Add_error (set_items (Some ∅) srv) _ gif_payload None
            index_unwritable _ _ _ _ _ _ _ _ _ _).
  - discriminate.
  - vm_compute. reflexivity.
  - vm_compute. reflexivity.
  - vm_compute. reflexivity.
Defined.

(** ** Memory-only repositories *)

(** C8. On a repository without root path and index path [Create] fails
    with [ErrUnsupported]; [Add] and [Remove] do what they do to the map
    ([Add] rejects a known id and stores a new one, [Remove] deletes the
    id) and return no error; [Get] reads the map.  None of them makes a
    system call: the world, its files and its trace are as before. *)
Theorem memory_only_operations {codec : Codec} {sniffer : Sniffer}
    (r : Repository) (w : World) :
  path r = "" -> lockPath r = "" ->
  (forall b m, Create r b m w = (None, Some ErrUnsupported, r, w))
  /\ (forall m, exists e r',
        Add r m w = (e, r', w)
        /\ match Get r (ID m) with
           | Some _ => e = Some (ErrDuplicateID (uuid.String (ID m)) (id r)) /\ r' = r
           | None => e = None /\ Get r' (ID m) = Some m
                     /\ forall k, k <> ID m -> Get r' k = Get r k
           end)
  /\ (forall k, exists r',
        Remove r k w = (None, r', w)
        /\ Get r' k = None
        /\ forall j, j <> k -> Get r' j = Get r j).
Proof.
  intros Hp Hl. split; [|split].
  - intros b m. by apply Create_memory.
  - intros m. pose proof (Add_cases r m w) as C.
    destruct (Get r (ID m)) as [x|] eqn:G.
    + by exists (Some (ErrDuplicateID (uuid.String (ID m)) (id r))), r.
    + simpl in C. rewrite saveSingle_memory in C by done. simpl in C.
      eexists None, _. split; [exact C|]. split; [done|]. split.
      * rewrite Get_set_items. apply lookup_insert_eq.
      * intros k Hk. rewrite (Get_Add _ _ _ _ _ _ k C), G.
        by destruct (decide (k = ID m)).
  - intros k. pose proof (Remove_run r k w) as R. simpl in R.
    rewrite save_memory in R by done. simpl in R.
    eexists. split; [exact R|]. split.
    + rewrite (Get_Remove _ _ _ k _ _ _ R). by destruct (decide (k = k)).
    + intros j Hj. rewrite (Get_Remove _ _ _ j _ _ _ R).
      by destruct (decide (j = k)).
Qed.

Lemma memory_only_operations_witness :
  (forall b m, Create (NewMemory "mem") b m w0
               = (None, Some ErrUnsupported, NewMemory "mem", w0))
  /\ (forall m, exists e r',
        Add (NewMemory "mem") m w0 = (e, r', w0)
        /\ match Get (NewMemory "mem") (ID m) with
           | Some _ => e = Some (ErrDuplicateID (uuid.String (ID m)) (id (NewMemory "mem")))
                       /\ r' = NewMemory "mem"
           | None => e = None /\ Get r' (ID m) = Some m
                     /\ forall k, k <> ID m -> Get r' k = Get (NewMemory "mem") k
           end)
  /\ (forall k, exists r',
        Remove (NewMemory "mem") k w0 = (None, r', w0)
        /\ Get r' k = None
        /\ forall j, j <> k -> Get r' j = Get (NewMemory "mem") j).
Proof.
  apply (memory_only_operations (NewMemory "mem") w0); reflexivity.
Defined.

(** ** An added entity stays until it is removed *)

Section Calls.
Context {codec : Codec} {sniffer : Sniffer}.

Lemma Add_keeps (r r' : Repository) (m x : Media) (w w' : World)
    (e : option error) (k : UUID) :
  Get r k = Some x -> Add r m w = (e, r', w') -> Get r' k = Some x.
Proof.
  intros G E. rewrite (Get_Add _ _ _ _ _ _ k E).
  destruct (Get r (ID m)) eqn:G'; [done|].
  destruct (decide (k = ID m)) as [->|]; [congruence|done].
Qed.

Lemma call_keeps (c : Call) (r : Repository) (w : World) (k : UUID) (x : Media) :
  c <> CallRemove k -> Get r k = Some x -> Get (call c r w).1 k = Some x.
Proof.
  intros Hc G. destruct c as [m|j|b m| | |n]; simpl.
  - rewrite bind_run. simpl. destruct (Add r m w) as [[e r'] w'] eqn:E.
    simpl. eauto using Add_keeps.
  - rewrite bind_run. simpl. destruct (Remove r j w) as [[e r'] w'] eqn:E.
    simpl. rewrite (Get_Remove _ _ _ k _ _ _ E).
    destruct (decide (k = j)) as [->|]; [congruence|done].
  - rewrite bind_run. simpl.
    destruct (Create r b m w) as [[[y e] r'] w'] eqn:E. simpl.
    destruct (Create_repository _ _ _ _ _ _ _ _ E) as [->|(m0 & w3 & w4 & err & EA)];
      eauto using Add_keeps.
  - done.
  - by rewrite bind_run.
  - by rewrite bind_run.
Qed.

Lemma calls_keep (cs : list Call) (r : Repository) (w : World) (k : UUID) (x : Media) :
  Forall (fun c => c <> CallRemove k) cs ->
  Get r k = Some x -> Get (calls cs r w).1 k = Some x.
Proof.
  intros Hcs. revert r w. induction Hcs as [|c cs Hc _ IH]; intros r w G; [done|].
  simpl. rewrite bind_run. apply IH. by apply call_keeps.
Qed.

End Calls.

(** C6. After [Add m] has returned without error, [Get] of the id of [m]
    returns [m] after every sequence of calls that does not remove this
    id; and once [Remove] of the id has run, [Get] returns nothing. *)
Theorem Get_after_Add_until_Remove {codec : Codec} {sniffer : Sniffer}
    (r r1 : Repository) (m : Media) (w w1 : World) :
  Add r m w = (None, r1, w1) ->
  forall cs : list Call,
    Forall (fun c => c <> CallRemove (ID m)) cs ->
    let r2 := (calls cs r1 w1).1 in
    let w2 := (calls cs r1 w1).2 in
    Get r2 (ID m) = Some m
    /\ Get (Remove r2 (ID m) w2).1.2 (ID m) = None.
Proof.
  intros EA cs Hcs r2 w2. split.
  - apply calls_keep; [done|].
    rewrite (Get_Add _ _ _ _ _ _ (ID m) EA).
    destruct (Get r (ID m)) eqn:G.
    + pose proof (Add_cases r m w) as C. rewrite G, EA in C. discriminate.
    + by destruct (decide (ID m = ID m)).
  - destruct (Remove r2 (ID m) w2) as [[e r3] w3] eqn:ER. simpl.
    rewrite (Get_Remove _ _ _ (ID m) _ _ _ ER). by destruct (decide (ID m = ID m)).
Qed.

Lemma Get_after_Add_until_Remove_witness :
  let after := calls [CallAdd B; CallRemove (ID B); CallCreate gif_payload None;
                      CallAdd (mkMedia (ID A) FormatUnknown "/srv/x" None);
                      CallRandom 2; CallItems]
                     (Add srv A w0).1.2 (Add srv A w0).2 in
  Get after.1 (ID A) = Some A
  /\ Get (Remove after.1 (ID A) after.2).1.2 (ID A) = None.
Proof.
  refine (Get_after_Add_until_Remove srv (Add srv A w0).1.2 A w0 (Add srv A w0).2 _ _ _).
  - vm_compute. reflexivity.
  - repeat constructor; discriminate.
Defined.

(** ** Sampling *)

Section Sampling.
Context {A : Type}.
Implicit Types (v : list A) (w : World).

Lemma swap_in_range (i j : nat) v :
  i < length v -> j < length v ->
  exists v', swap i j v = Some v' /\ v' ≡ₚ v.
Proof.
  intros Hi Hj. unfold swap.
  destruct (lookup_lt_is_Some_2 v i Hi) as [a Ea].
  destruct (lookup_lt_is_Some_2 v j Hj) as [b Eb].
  rewrite Ea, Eb. eexists. split; [done|].
  by apply Permutation_insert_swap.
Qed.

Lemma Intn_bound (n : nat) w : n <> 0 -> (rand.Intn n w).1 < n.
Proof.
  intros Hn. unfold rand.Intn. destruct (random w) as [|x rest]; simpl.
  - lia.
  - by apply Nat.mod_upper_bound.
Qed.

(** The loop of [Shuffle] never leaves the slice and permutes it. *)
Lemma shuffle_from_permutes (i : nat) v w :
  i < length v \/ i = 0 ->
  exists v' w', rand.shuffle_from i swap v w = (Some v', w') /\ v' ≡ₚ v.
Proof.
  revert v w. induction i as [|i IH]; intros v w Hi.
  - by exists v, w.
  - destruct Hi as [Hi|]; [|done]. simpl. rewrite bind_run.
    pose proof (Intn_bound (S (S i)) w ltac:(done)) as Hj.
    destruct (swap_in_range (S i) (rand.Intn (S (S i)) w).1 v) as (v1 & E1 & P1);
      [lia..|].
    rewrite E1.
    destruct (IH v1 (rand.Intn (S (S i)) w).2) as (v2 & w2 & E2 & P2).
    { left. rewrite P1. lia. }
    exists v2, w2. split; [done|]. by rewrite P2.
Qed.

Lemma Shuffle_permutes v w :
  exists v' w', rand.Shuffle (length v) swap v w = (Some v', w') /\ v' ≡ₚ v.
Proof.
  unfold rand.Shuffle. apply shuffle_from_permutes.
  destruct v; simpl; [by right|left; lia].
Qed.

Lemma permute_Permutation (order : list nat) (l : list A) :
  runtime.permute order l ≡ₚ l.
Proof.
  revert l. induction order as [|k order IH]; intros l; simpl; [done|].
  destruct (l !! (k mod length l)) as [x|] eqn:E; [|done].
  rewrite IH. symmetry. by apply delete_Permutation.
Qed.

End Sampling.

Lemma range_Permutation {V : Type} (m : gmap UUID V) (w : World) :
  (runtime.range m w).1 ≡ₚ map_to_list m.
Proof.
  unfold runtime.range. destruct (orders w); simpl; [done|].
  apply permute_Permutation.
Qed.

(** [Items()] returns the entities of the entries, in some order. *)
Lemma Items_entries (r : Repository) (w : World) :
  exists es, es ≡ₚ entries r /\ (Items r w).1 = es.*2.
Proof.
  unfold Items, maps_Values, entries. destruct (items r) as [m|]; simpl.
  - rewrite bind_run. simpl. eexists. split; [|done]. apply range_Permutation.
  - exists []. by rewrite map_to_list_empty.
Qed.

Lemma entries_Get (r : Repository) (k : UUID) (m : Media) :
  (k, m) ∈ entries r <-> Get r k = Some m.
Proof.
  unfold entries, Get. rewrite elem_of_map_to_list.
  destruct (items r); simpl; [done|]. by rewrite lookup_empty.
Qed.

Lemma drawn_sublist (r : Repository) (es es' : list (UUID * Media)) :
  es' `sublist_of` es -> drawn r es -> drawn r es'.
Proof.
  intros Hs [ND Hin]. split.
  - eapply sublist_NoDup; [done|]. by apply fmap_sublist.
  - intros k m Hk. apply Hin. revert Hk. by apply sublist_subseteq.
Qed.

Lemma drawn_entries (r : Repository) (es : list (UUID * Media)) :
  es ≡ₚ entries r -> drawn r es.
Proof.
  intros P. split.
  - rewrite P. apply NoDup_fst_map_to_list.
  - intros k m Hk. apply entries_Get. by rewrite <- P.
Qed.

(** In a repository that stores every entity under its own id, entries at
    distinct ids hold distinct entities. *)
Lemma drawn_distinct (r : Repository) (es : list (UUID * Media)) :
  keyed r -> drawn r es -> NoDup es.*2.
Proof.
  intros Hk [ND Hin]. apply (NoDup_fmap_1 ID).
  replace (ID <$> es.*2) with es.*1; [done|].
  rewrite <- list_fmap_compose.
  apply Forall_fmap_ext_1, Forall_forall. intros [k m] Hkm. simpl.
  symmetry. apply Hk. by apply Hin.
Qed.

(** C3. [Random n] does not panic.  For [n <= 0] the result is empty.  For
    [0 < n <= |items|] it has exactly [n] elements, which are the entities
    stored under [n] pairwise distinct ids of the map, hence pairwise
    distinct entities of the item set.  For [n > |items|] it is the whole
    item set in some order. *)
Theorem Random_sample (r : Repository) (n : Z) (w : World) :
  exists v w',
    Random r n w = (Some v, w')
    /\ ((n <= 0)%Z -> v = [])
    /\ ((0 < n <= Z.of_nat (length (entries r)))%Z ->
        length v = Z.to_nat n
        /\ (exists es, drawn r es /\ v = es.*2)
        /\ (keyed r -> NoDup v))
    /\ ((n > Z.of_nat (length (entries r)))%Z -> v ≡ₚ (entries r).*2).
Proof.
  unfold Random. destruct (Z.leb_spec n 0) as [Hn|Hn].
  { exists [], w. split; [done|]. split; [done|]. split; intros; lia. }
  rewrite bind_run. destruct (Items_entries r w) as (es0 & P0 & E0).
  rewrite E0. set (w1 := (Items r w).2).
  destruct (Shuffle_permutes (es0.*2) w1) as (v1 & w2 & ES & P1).
  rewrite bind_run, ES. simpl.
  destruct (Permutation_map_inv _ _ P1) as (es1 & -> & P2).
  assert (es1 ≡ₚ entries r) as P3 by (by rewrite <- P2).
  pose proof (drawn_entries r es1 P3) as D1.
  eexists _, w2. split; [done|]. split; [lia|].
  change (map snd es1) with (es1.*2).
  rewrite length_fmap, <- (Permutation_length P3).
  split.
  - intros [_ Hle].
    assert (exists es, drawn r es /\ length es = Z.to_nat n
                       /\ (if (n <? Z.of_nat (length es1))%Z
                           then take (Z.to_nat n) es1.*2 else es1.*2) = es.*2)
      as (es & D & L & ->).
    { destruct (Z.ltb_spec n (Z.of_nat (length es1))) as [Hlt|Hge].
      - exists (take (Z.to_nat n) es1). split; [|split].
        + eapply drawn_sublist; [apply sublist_take|done].
        + rewrite length_take. lia.
        + by rewrite fmap_take.
      - exists es1. split; [done|]. split; [lia|done]. }
    split; [by rewrite length_fmap|]. split; [by exists es|].
    intros Hk. by apply (drawn_distinct r).
  - intros Hgt. destruct (Z.ltb_spec n (Z.of_nat (length es1))) as [Hlt|Hge]; [lia|].
    by rewrite P3.
Qed.

(** *** Every entity is stored under its own id *)

Section Keyed.
Context {codec : Codec} {sniffer : Sniffer}.

Lemma keyed_nil (r : Repository) : items r = None -> keyed r.
Proof. intros E k m. unfold Get. by rewrite E. Qed.

Lemma keyed_NewMemory (name : string) : keyed (NewMemory name).
Proof. by apply keyed_nil. Qed.

Lemma keyed_Add (r r' : Repository) (m : Media) (w w' : World) (e : option error) :
  keyed r -> Add r m w = (e, r', w') -> keyed r'.
Proof.
  intros Hk E k x. rewrite (Get_Add _ _ _ _ _ _ k E).
  destruct (Get r (ID m)); [apply Hk|].
  destruct (decide (k = ID m)) as [->|]; [congruence|apply Hk].
Qed.

Lemma keyed_Remove (r r' : Repository) (j : UUID) (w w' : World) (e : option error) :
  keyed r -> Remove r j w = (e, r', w') -> keyed r'.
Proof.
  intros Hk E k x. rewrite (Get_Remove _ _ _ k _ _ _ E).
  destruct (decide (k = j)); [done|apply Hk].
Qed.

Lemma keyed_call (c : Call) (r : Repository) (w : World) :
  keyed r -> keyed (call c r w).1.
Proof.
  intros Hk. destruct c as [m|j|b m| | |n]; simpl; rewrite ?bind_run; simpl; try done.
  - destruct (Add r m w) as [[e r'] w'] eqn:E. eauto using keyed_Add.
  - destruct (Remove r j w) as [[e r'] w'] eqn:E. eauto using keyed_Remove.
  - destruct (Create r b m w) as [[[y e] r'] w'] eqn:E. simpl.
    destruct (Create_repository _ _ _ _ _ _ _ _ E) as [->|(m0 & w3 & w4 & err & EA)];
      eauto using keyed_Add.
Qed.

Lemma keyed_calls (cs : list Call) (r : Repository) (w : World) :
  keyed r -> keyed (calls cs r w).1.
Proof.
  revert r w. induction cs as [|c cs IH]; intros r w Hk; [done|].
  simpl. rewrite bind_run. apply IH. by apply keyed_call.
Qed.

End Keyed.

Lemma three_entries : length (entries three) = 3.
Proof. vm_compute. reflexivity. Qed.

Lemma Random_sample_witness :
  (exists w', Random three 0 dice = (Some [], w'))
  /\ (exists v w', Random three 2 dice = (Some v, w')
                   /\ length v = 2 /\ NoDup v
                   /\ exists es, drawn three es /\ v = es.*2)
  /\ (exists v w', Random three 7 dice = (Some v, w') /\ v ≡ₚ (entries three).*2).
Proof.
  split; [|split].
  - destruct (Random_sample three 0 dice) as (v & w' & E & H0 & _).
    exists w'. rewrite E, H0; [reflexivity|lia].
  - destruct (Random_sample three 2 dice) as (v & w' & E & _ & H2 & _).
    exists v, w'. split; [exact E|].
    destruct H2 as (L & D & N); [rewrite three_entries; lia|].
    split; [exact L|]. split; [|exact D].
    apply N. apply keyed_calls, keyed_NewMemory.
  - destruct (Random_sample three 7 dice) as (v & w' & E & _ & _ & H7).
    exists v, w'. split; [exact E|]. apply H7. rewrite three_entries. lia.
Defined.

(** ** What the writers do to the files *)

Section Files.
Context {codec : Codec}.

Lemma syscall_files (ev : Syscall) (w : World) :
  files (os.syscall ev w).2 = files w /\ cwd (os.syscall ev w).2 = cwd w
  /\ dirs (os.syscall ev w).2 = dirs w.
Proof. unfold os.syscall. by destruct (faults w). Qed.

Lemma Close_files (f : os.File) (w : World) :
  files (os.Close f w).2 = files w.
Proof.
  unfold os.Close. rewrite bind_run. simpl. apply syscall_files.
Qed.

(** A write changes the file behind the handle and no other. *)
Lemma Write_files (f : os.File) (b : bytes) (w : World) (q : string) :
  q <> os.fpath f -> files (os.Write f b w).2 !! q = files w !! q.
Proof.
  intros Hq. unfold os.Write. rewrite bind_run.
  destruct (syscall_files (SysWrite (os.fpath f) (length b)) w) as (Ef & _).
  destruct (os.syscall _ w) as [[flt|] w1]; simpl in *;
    rewrite lookup_insert_ne by done; by rewrite Ef.
Qed.

Lemma Write_fpath (f : os.File) (b : bytes) (w : World) :
  os.fpath (os.Write f b w).1.1 = os.fpath f.
Proof.
  unfold os.Write. rewrite bind_run.
  by destruct (os.syscall _ w) as [[flt|] w1].
Qed.

(** A write that does not fail stores all of [b] at the offset. *)
Lemma Write_all (f f' : os.File) (b : bytes) (w w' : World) :
  os.Write f b w = (f', None, w') ->
  os.fappend f = false ->
  files w' !! os.fpath f = Some (os.pwrite (os.contents w f) (os.offset f) b).
Proof.
  unfold os.Write. rewrite bind_run. intros E Ha.
  destruct (syscall_files (SysWrite (os.fpath f) (length b)) w) as (Ef & _).
  destruct (os.syscall _ w) as [[flt|] w1]; simpl in *; [done|].
  inversion E; subst; clear E. simpl. rewrite lookup_insert_eq, Ha.
  unfold os.contents. by rewrite Ef.
Qed.

(** An open for writing changes at most the file it names. *)
Lemma OpenFile_files (name : string) (flag : OpenFlags) (w : World) (q : string) :
  q <> os.resolve w name ->
  files (os.OpenFile name flag w).2 !! q = files w !! q.
Proof.
  intros Hq. unfold os.OpenFile. rewrite bind_run.
  destruct (syscall_files (SysOpenFile name flag) w) as (Ef & Ec & Ed).
  assert (os.resolve (os.syscall (SysOpenFile name flag) w).2 name = os.resolve w name)
    as Er by (unfold os.resolve; by rewrite Ec).
  destruct (os.syscall _ w) as [[flt|] w1]; simpl in *; [by rewrite Ef|].
  rewrite Er. destruct (String.eqb name ""); simpl; [by rewrite Ef|].
  destruct (bool_decide _); simpl; [by rewrite Ef|].
  destruct (files w1 !! os.resolve w name) eqn:E.
  - destruct (O_CREATE flag && O_EXCL flag); simpl; [by rewrite Ef|].
    destruct (O_TRUNC flag); simpl; [|by rewrite Ef].
    rewrite lookup_insert_ne by done. by rewrite Ef.
  - destruct (O_CREATE flag); simpl; [|by rewrite Ef].
    rewrite lookup_insert_ne by done. by rewrite Ef.
Qed.

Lemma OpenFile_fpath (name : string) (flag : OpenFlags) (w w' : World) (f : os.File) :
  os.OpenFile name flag w = (inl f, w') ->
  os.fpath f = os.resolve w name /\ os.offset f = 0
  /\ os.fappend f = O_APPEND flag /\ cwd w' = cwd w.
Proof.
  unfold os.OpenFile. rewrite bind_run.
  destruct (syscall_files (SysOpenFile name flag) w) as (Ef & Ec & Ed).
  assert (os.resolve (os.syscall (SysOpenFile name flag) w).2 name = os.resolve w name)
    as Er by (unfold os.resolve; by rewrite Ec).
  destruct (os.syscall _ w) as [[flt|] w1]; simpl in *; [done|].
  rewrite Er. destruct (String.eqb name ""); simpl; [done|].
  destruct (bool_decide _); simpl; [done|].
  destruct (files w1 !! os.resolve w name) eqn:E.
  - destruct (O_CREATE flag && O_EXCL flag); simpl; [done|].
    intros [= <- <-]. by destruct (O_TRUNC flag).
  - destruct (O_CREATE flag); simpl; [|done]. by intros [= <- <-].
Qed.

Lemma write_files (r : Repository) (f : os.File) (m : Media) (w : World) (q : string) :
  q <> os.fpath f ->
  files (write r f m w).2 !! q = files w !! q
  /\ os.fpath (write r f m w).1.1 = os.fpath f.
Proof.
  intros Hq. unfold write. destruct (json_Marshal _) as [b|e]; [|done].
  rewrite bind_run.
  pose proof (Write_files f (b ++ [NL]) w q Hq) as E1.
  pose proof (Write_fpath f (b ++ [NL]) w) as E2.
  by destruct (os.Write f _ w) as [[f' e] w'].
Qed.

(** [saveSingle] changes no file but the index. *)
Lemma saveSingle_files (r : Repository) (m : Media) (w : World) (q : string) :
  q <> os.resolve w (lockPath r) ->
  files (saveSingle r m w).2 !! q = files w !! q.
Proof.
  intros Hq. unfold saveSingle. destruct (String.eqb _ _); [done|].
  rewrite bind_run.
  pose proof (OpenFile_files (lockPath r) flag_append_create w q Hq) as E1.
  destruct (os.OpenFile _ _ w) as [[f|e] w1] eqn:EO; simpl in *; [|done].
  apply OpenFile_fpath in EO as (Ep & _).
  rewrite bind_run.
  destruct (write_files r f m w1 q) as [E2 E3]; [by rewrite Ep|].
  destruct (write r f m w1) as [[f' err] w2]; simpl in *.
  rewrite bind_run. pose proof (Close_files f' w2) as E4.
  destruct (os.Close f' w2) as [[e0|] w3]; simpl in *; by rewrite E4, E2.
Qed.

(** [Add] changes no file but the index. *)
Lemma Add_files (r : Repository) (m : Media) (w : World) (q : string) :
  q <> os.resolve w (lockPath r) ->
  files (Add r m w).2 !! q = files w !! q.
Proof.
  intros Hq. pose proof (Add_cases r m w) as C.
  destruct (Get r (ID m)); rewrite C; [done|]. simpl.
  by apply saveSingle_files.
Qed.

End Files.

(** ** The asset file of [Create] *)

Lemma Clean_nonempty (p : string) : filepath.Clean p <> "".
Proof.
  unfold filepath.Clean. destruct (filepath.IsAbs p); [done|].
  destruct (String.eqb _ "") eqn:E; [done|]. by apply String.eqb_neq.
Qed.

Lemma Join_nonempty (root name : string) :
  root <> "" -> filepath.Join [root; name] <> "".
Proof.
  intros Hr. apply String.eqb_neq in Hr. unfold filepath.Join. rewrite Hr.
  apply Clean_nonempty.
Qed.

Lemma Write_cwd (f : os.File) (b : bytes) (w : World) :
  cwd (os.Write f b w).2 = cwd w.
Proof.
  unfold os.Write. rewrite bind_run.
  destruct (syscall_files (SysWrite (os.fpath f) (length b)) w) as (_ & Ec & _).
  by destruct (os.syscall _ w) as [[flt|] w1].
Qed.

(** An existing regular file is opened by [O_WRONLY|O_CREATE] as it is. *)
Lemma OpenFile_existing (name : string) (w : World) (old : bytes) :
  faults w = [] -> name <> "" ->
  os.resolve w name ∉ dirs w ->
  files w !! os.resolve w name = Some old ->
  exists w', os.OpenFile name flag_create w = (inl (os.mkFile (os.resolve w name) 0 false), w')
             /\ files w' = files w.
Proof.
  intros Hf Hn Hd Hold. apply String.eqb_neq in Hn.
  unfold os.OpenFile, os.syscall, bind. rewrite Hf. simpl.
  unfold os.resolve; simpl. fold (os.resolve w name).
  rewrite Hn, bool_decide_eq_false_2 by done. rewrite Hold. simpl. eauto.
Qed.

(** C5, as the code has it.  The asset-write step of [Create] opens
    [root/<id><extension>] write-only, creating it when it is missing; the
    open is not exclusive, a regular file already there is opened as it is.
    An open failure and a write failure are returned to the caller, wrapped
    with the name of the step, and no entity is returned.  A write that
    succeeds puts the whole payload at the start of the file, and what was
    written stays: nothing that follows in [Create] changes the file. *)
Theorem Create_asset_write {codec : Codec} {sniffer : Sniffer}
    (r : Repository) (b : bytes) (m : option Metadata) (w : World) :
  path r <> "" ->
  let u := (uuid_New w).1 in
  let w1 := (uuid_New w).2 in
  let dest := filepath.Join [path r; uuid.String u +:+ mime_Extension (mimetype_Detect b)] in
  let open := os.OpenFile dest (mkFlags false true false false) w1 in
  (forall old, faults w = [] -> os.resolve w dest ∉ dirs w ->
               files w !! os.resolve w dest = Some old ->
               exists f w2, open = (inl f, w2) /\ files w2 = files w)
  /\ (forall e w2, open = (inr e, w2) ->
        Create r b m w = (None, Some (Wrap e "failed to open file"), r, w2))
  /\ (forall f w2 f' e w3,
        open = (inl f, w2) -> os.Write f b w2 = (f', Some e, w3) ->
        exists w', Create r b m w = (None, Some (Wrap e "failed to write file"), r, w')
                   /\ files w' = files w3)
  /\ (forall f w2 f' w3,
        open = (inl f, w2) -> os.Write f b w2 = (f', None, w3) ->
        os.fpath f = os.resolve w dest
        /\ files w3 !! os.fpath f = Some (b ++ drop (length b) (os.contents w2 f))
        /\ exists x e r' w',
             Create r b m w = (Some x, e, r', w')
             /\ (os.resolve w (lockPath r) <> os.resolve w dest ->
                 files w' !! os.fpath f = files w3 !! os.fpath f)).
Proof.
  intros Hp u w1 dest open.
  assert (cwd w1 = cwd w /\ files w1 = files w /\ dirs w1 = dirs w /\ faults w1 = faults w)
    as (Ec1 & Ef1 & Ed1 & Efl1).
  { unfold w1, uuid_New. by destruct (uuids w). }
  assert (forall p, os.resolve w1 p = os.resolve w p) as Er1.
  { intros p. unfold os.resolve. by rewrite Ec1. }
  pose proof (Create_run r b m w Hp) as Run. simpl in Run.
  change (destination r (uuid_New w).1 b) with dest in Run.
  change (os.OpenFile dest flag_create (uuid_New w).2) with open in Run.
  split; [|split; [|split]].
  - intros old Hf Hd Hold.
    destruct (OpenFile_existing dest w1 old) as (w2 & E & Efs).
    + by rewrite Efl1.
    + by apply Join_nonempty.
    + by rewrite Er1, Ed1.
    + by rewrite Er1, Ef1.
    + eexists _, w2. split; [exact E|]. by rewrite Efs.
  - intros e w2 EO. by rewrite Run, EO.
  - intros f w2 f' e w3 EO EW. rewrite Run, EO, EW.
    eexists. split; [done|]. apply Close_files.
  - intros f w2 f' w3 EO EW.
    pose proof (OpenFile_fpath _ _ _ _ _ EO) as (Ep & Eoff & Eapp & Ec2).
    rewrite Er1 in Ep. split; [done|]. split.
    + rewrite (Write_all _ _ _ _ _ EW Eapp), Eoff. reflexivity.
    + rewrite Run, EO, EW.
      destruct (Add r (entity r (uuid_New w).1 b m) w3) as [[err r'] w4] eqn:EA.
      eexists _, _, _, _. split; [done|]. intros Hne.
      rewrite Close_files.
      replace w4 with (Add r (entity r (uuid_New w).1 b m) w3).2 by (by rewrite EA).
      apply Add_files.
      assert (cwd w3 = cwd w) as Ec3.
      { replace w3 with (os.Write f b w2).2 by (by rewrite EW).
        rewrite Write_cwd. congruence. }
      unfold os.resolve in *. rewrite Ec3, Ep. congruence.
Qed.

Lemma Create_asset_write_witness :
  (exists f w2, os.OpenFile gif_1 flag_create (uuid_New occupied).2 = (inl f, w2)
                /\ files w2 = files occupied)
  /\ Create srv gif_payload None open_fails
     = (None, Some (Wrap (PathError "open" gif_1 EACCES) "failed to open file"), srv,
        (os.OpenFile gif_1 flag_create (uuid_New open_fails).2).2)
  /\ (exists w', Create srv gif_payload None write_fails
                 = (None, Some (Wrap (PathError "write" gif_1 ENOSPC) "failed to write file"),
                    srv, w')
                 /\ files w' !! gif_1 = Some (bytes_of_string "GIF"))
  /\ (exists x e r' w', Create srv gif_payload None w0 = (Some x, e, r', w')
                        /\ files w' !! gif_1 = Some gif_payload).
Proof.
  split; [|split; [|split]].
  - refine (proj1 (Create_asset_write srv gif_payload None occupied _)
              (bytes_of_string "an older and longer file") _ _ _).
    + discriminate.
    + reflexivity.
    + vm_compute. set_solver.
    + vm_compute. reflexivity.
  - refine (proj1 (proj2 (Create_asset_write srv gif_payload None open_fails _)) _ _ _).
    + discriminate.
    + vm_compute. reflexivity.
  - destruct (proj1 (proj2 (proj2 (Create_asset_write srv gif_payload None write_fails
                                      ltac:(discriminate))))
                (os.mkFile gif_1 0 false)
                (os.OpenFile gif_1 flag_create (uuid_New write_fails).2).2
                (os.mkFile gif_1 3 false)
                (PathError "write" gif_1 ENOSPC)
                (os.Write (os.mkFile gif_1 0 false) gif_payload
                   (os.OpenFile gif_1 flag_create (uuid_New write_fails).2).2).2)
      as (w' & E & Ef).
    + vm_compute. reflexivity.
    + vm_compute. reflexivity.
    + exists w'. split; [exact E|]. rewrite Ef. vm_compute. reflexivity.
  - destruct (proj2 (proj2 (proj2 (Create_asset_write srv gif_payload None w0
                                      ltac:(discriminate))))
                (os.mkFile gif_1 0 false)
                (os.OpenFile gif_1 flag_create (uuid_New w0).2).2
                (os.mkFile gif_1 6 false)
                (os.Write (os.mkFile gif_1 0 false) gif_payload
                   (os.OpenFile gif_1 flag_create (uuid_New w0).2).2).2)
      as (Ep & Ef & x & e & r' & w' & E & Keep).
    + vm_compute. reflexivity.
    + vm_compute. reflexivity.
    + exists x, e, r', w'. split; [exact E|].
      simpl in Keep. rewrite Keep; [|vm_compute; discriminate].
      vm_compute. reflexivity.
Defined.

(** C5, as the claim states it, fails twice.  The open is not exclusive: a
    file that is already at the destination is opened, and [Create]
    succeeds and overwrites its start.  And a failure of the close of the
    asset file after a successful write is not reported: the sixth system
    call, the close of the asset, fails, and [Create] returns the entity
    and no error. *)
Lemma Create_close_failure_not_reported :
  (exists r' w',
     Create srv gif_payload None occupied
     = (Some (mkMedia 1%N FormatAnimatedImage gif_1 None), None, r', w')
     /\ files occupied !! gif_1 = Some (bytes_of_string "an older and longer file")
     /\ files w' !! gif_1 = Some (bytes_of_string "GIF89aer and longer file"))
  /\ (exists r' w',
        Create srv gif_payload None close_fails
        = (Some (mkMedia 1%N FormatAnimatedImage gif_1 None), None, r', w')
        /\ faults close_fails !! 5 = Some (Some (mkFault EIO 0))
        /\ rev (trace w') !! 5 = Some (SysClose gif_1)
        /\ length (trace w') = 6
        /\ faults w' = []).
Proof.
  split; eexists _, _; vm_compute; repeat split; reflexivity.
Qed.

(** ** Construction from an index file *)

Lemma same_disk_refl (w : World) : same_disk w w.
Proof. done. Qed.

Lemma same_disk_trans (w1 w2 w3 : World) :
  same_disk w1 w2 -> same_disk w2 w3 -> same_disk w1 w3.
Proof. unfold same_disk. intros (-> & -> & ->) (-> & -> & ->). done. Qed.

Lemma same_disk_resolve (w w' : World) (p : string) :
  same_disk w w' -> os.resolve w' p = os.resolve w p.
Proof. intros (_ & _ & Ec). unfold os.resolve. by rewrite Ec. Qed.

Lemma same_disk_exists (w w' : World) (p : string) :
  same_disk w w' -> os.exists_ w' p = os.exists_ w p.
Proof.
  intros S. pose proof (same_disk_resolve _ _ p S) as Er.
  destruct S as (Ef & Ed & _). unfold os.exists_. by rewrite Er, Ef, Ed.
Qed.

(** In a world without injected failures a system call is only logged. *)
Lemma syscall_quiet (ev : Syscall) (w : World) :
  faults w = [] -> os.syscall ev w = (None, logged ev w).
Proof. intros E. unfold os.syscall. by rewrite E. Qed.

Lemma Getwd_quiet (w : World) :
  faults w = [] -> os.Getwd w = (inl (cwd w), logged SysGetwd w).
Proof. intros E. unfold os.Getwd, bind. by rewrite syscall_quiet. Qed.

Lemma MkdirAll_quiet (p : string) (w : World) :
  faults w = [] -> p <> "" -> files w !! os.resolve w p = None ->
  os.MkdirAll p w
  = (None, set_dirs ({[os.resolve w p]} ∪ dirs w) (logged (SysMkdirAll p) w)).
Proof.
  intros E Hp Hf. apply String.eqb_neq in Hp.
  unfold os.MkdirAll, bind. rewrite syscall_quiet by done. rewrite Hp.
  change (os.resolve (logged (SysMkdirAll p) w) p) with (os.resolve w p).
  change (files (logged (SysMkdirAll p) w)) with (files w). by rewrite Hf.
Qed.

Lemma Stat_quiet (p : string) (w : World) :
  faults w = [] ->
  os.Stat p w
  = (if os.exists_ w p then None else Some (PathError "stat" p ENOENT),
     logged (SysStat p) w).
Proof.
  intros E. unfold os.Stat, bind. rewrite syscall_quiet by done.
  change (os.exists_ (logged (SysStat p) w) p) with (os.exists_ w p).
  by destruct (os.exists_ w p).
Qed.

Lemma Open_quiet (p : string) (w : World) :
  faults w = [] -> os.exists_ w p = true ->
  os.Open p w = (inl (os.mkFile (os.resolve w p) 0 false), logged (SysOpen p) w).
Proof.
  intros E Hx. unfold os.Open, bind. rewrite syscall_quiet by done.
  change (os.exists_ (logged (SysOpen p) w) p) with (os.exists_ w p).
  by rewrite Hx.
Qed.

Lemma ReadAll_quiet (f : os.File) (w : World) :
  faults w = [] -> os.fpath f ∉ dirs w ->
  os.ReadAll f w = (os.contents w f, None, logged (SysRead (os.fpath f)) w).
Proof.
  intros E Hd. unfold os.ReadAll, bind. rewrite syscall_quiet by done.
  change (dirs (logged (SysRead (os.fpath f)) w)) with (dirs w).
  by rewrite bool_decide_eq_false_2.
Qed.

Lemma Close_quiet (f : os.File) (w : World) :
  faults w = [] -> os.Close f w = (None, logged (SysClose (os.fpath f)) w).
Proof. intros E. unfold os.Close, bind. by rewrite syscall_quiet. Qed.


Lemma ID_resolved (root : string) (m : Media) : ID (resolved root m) = ID m.
Proof. reflexivity. Qed.

Section Reload.
Context {codec : Codec}.

(** Without injected failures the loop over the lines is the loop over
    the decoded records, and it leaves the disk alone. *)
Lemma load_lines_quiet (name root : string) (lines : list bytes)
    (acc : gmap UUID Media) (w : World) :
  faults w = [] ->
  exists w', load_lines name root lines acc w
             = (load_records (os.exists_ w) root (decoded lines) acc, w')
             /\ faults w' = [] /\ same_disk w w'.
Proof.
  revert acc w. induction lines as [|line lines IH]; intros acc w Hq.
  { exists w. by split. }
  simpl. rewrite bind_run. unfold decoded. destruct line as [|b line].
  { simpl. rewrite filter_cons_False by naive_solver. apply IH, Hq. }
  rewrite filter_cons_True by done. rewrite fmap_cons.
  fold (decoded lines). unfold load_line.
  destruct (json_Unmarshal (b :: line)) as [m|e]; simpl; [|by exists w].
  destruct (acc !! ID m) eqn:Eacc.
  - rewrite bind_run. simpl.
    set (w1 := set_warnings _ w).
    destruct (IH acc w1 Hq) as (w' & E & Hq' & S).
    exists w'. by rewrite E.
  - rewrite bind_run, Stat_quiet by done. simpl.
    change (if filepath.IsAbs (Path m) then Path m else filepath.Join [root; Path m])
      with (Path (resolved root m)).
    change (mkMedia (ID m) (Format_ m) (Path (resolved root m)) (Meta m))
      with (resolved root m).
    destruct (os.exists_ w (Path (resolved root m))) eqn:Ex; simpl.
    + set (w1 := logged _ w).
      destruct (IH (<[ID m := resolved root m]> acc) w1 Hq) as (w' & E & Hq' & S).
      exists w'. by rewrite E.
    + rewrite ?bind_run. simpl. set (w1 := set_warnings _ _).
      destruct (IH acc w1 Hq) as (w' & E & Hq' & S).
      exists w'. by rewrite E.
Qed.

End Reload.

Lemma first_with_cons (k : UUID) (m : Media) (l : list Media) :
  first_with k (m :: l) = if decide (ID m = k) then Some m else first_with k l.
Proof.
  unfold first_with. destruct (decide (ID m = k)).
  - by rewrite filter_cons_True.
  - by rewrite filter_cons_False.
Qed.

Lemma load_records_inl (ex : string -> bool) (root : string) (m : Media)
    (rest : list (Media + error)) (acc : gmap UUID Media) :
  load_records ex root (inl m :: rest) acc
  = match acc !! ID m with
    | Some _ => load_records ex root rest acc
    | None =>
        if ex (Path (resolved root m))
        then load_records ex root rest (<[ID m := resolved root m]> acc)
        else load_records ex root rest acc
    end.
Proof. reflexivity. Qed.

Lemma load_records_corrupt (ex : string -> bool) (root : string)
    (good : list Media) (e : error) (rest : list (Media + error)) (acc : gmap UUID Media) :
  load_records ex root ((inl <$> good) ++ inr e :: rest) acc
  = inr (Wrap e "failed to read index file item").
Proof.
  revert acc. induction good as [|m good IH]; intros acc; simpl; [done|].
  destruct (acc !! ID m); [apply IH|]. destruct (ex _); apply IH.
Qed.

(** From well-formed records the loop keeps, for every id, what was there
    before or else the first record with this id that is on the disk. *)
Lemma load_records_clean (ex : string -> bool) (root : string)
    (ms : list Media) (acc : gmap UUID Media) :
  exists its,
    load_records ex root (inl <$> ms) acc = inl its
    /\ forall k, its !! k = match acc !! k with
                            | Some x => Some x
                            | None => first_with k (survivors ex root ms)
                            end.
Proof.
  revert acc. induction ms as [|m ms IH]; intros acc.
  { exists acc. split; [done|]. intros k. by destruct (acc !! k). }
  rewrite fmap_cons, load_records_inl.
  unfold survivors. rewrite fmap_cons. fold (survivors ex root ms).
  destruct (acc !! ID m) as [x|] eqn:Eacc.
  - destruct (IH acc) as (its & E & L). exists its. split; [done|].
    intros k. rewrite L. destruct (acc !! k) eqn:Ek; [done|].
    assert (ID (resolved root m) <> k) as Hne by (rewrite ID_resolved; congruence).
    destruct (ex (Path (resolved root m))) eqn:Ex.
    + rewrite filter_cons_True by done. rewrite first_with_cons.
      by rewrite decide_False.
    + rewrite filter_cons_False by (by rewrite Ex). done.
  - destruct (ex (Path (resolved root m))) eqn:Ex.
    + destruct (IH (<[ID m := resolved root m]> acc)) as (its & E & L).
      exists its. split; [done|]. intros k. rewrite L.
      rewrite filter_cons_True by done. rewrite first_with_cons, ID_resolved.
      destruct (decide (ID m = k)) as [<-|Hne].
      * by rewrite lookup_insert_eq, Eacc.
      * by rewrite lookup_insert_ne.
    + destruct (IH acc) as (its & E & L). exists its. split; [done|].
      intros k. rewrite L. rewrite filter_cons_False by (by rewrite Ex). done.
Qed.

Lemma IsAbs_Join (root p : string) :
  filepath.IsAbs root = true -> filepath.IsAbs (filepath.Join [root; p]) = true.
Proof.
  intros Hr. destruct root as [|c s]; [done|]. unfold filepath.Join.
  simpl String.eqb. cbv iota. unfold filepath.Clean.
  assert (filepath.IsAbs (String.concat "/" [String c s; p]) = true) as -> by done.
  done.
Qed.

Lemma first_with_Some (k : UUID) (l : list Media) (m : Media) :
  first_with k l = Some m -> m ∈ l /\ ID m = k.
Proof.
  unfold first_with. intros E. apply head_Some_elem_of in E.
  by apply list_elem_of_filter in E as [? ?].
Qed.

Lemma survivors_resolved (ex : string -> bool) (root : string) (ms : list Media) (m : Media) :
  m ∈ survivors ex root ms ->
  ex (Path m) = true /\ exists m0, m0 ∈ ms /\ m = resolved root m0.
Proof.
  unfold survivors. intros [Hx Hin]%list_elem_of_filter.
  apply list_elem_of_fmap in Hin as (m0 & -> & Hin). eauto.
Qed.

Lemma resolved_IsAbs (root : string) (m : Media) :
  filepath.IsAbs root = true -> filepath.IsAbs (Path (resolved root m)) = true.
Proof.
  intros Hr. unfold resolved. simpl.
  destruct (filepath.IsAbs (Path m)) eqn:E; [done|]. by apply IsAbs_Join.
Qed.

(** C4.  In a world where no system call fails and the root is not a
    regular file, [NewFile] does the following.  When nothing is at the
    index path, it succeeds with the nil map.  When the index is a file,
    its empty lines are passed over and the others are decoded: the first
    line that does not decode makes the constructor return no repository
    and the wrapped decoding error; when all decode, the map holds for
    every id the first record with this id whose path, taken relative to
    the root unless it is absolute, is on the disk, and holds it under this
    absolute path; records with a known id or without a file are left
    out. *)
Theorem NewFile_reload {codec : Codec} (name path lockPath : string) (w : World) :
  faults w = [] ->
  filepath.IsAbs (cwd w) = true ->
  let root := if filepath.IsAbs path then path else filepath.Join [cwd w; path] in
  files w !! os.resolve w root = None ->
  let w1 := set_dirs ({[os.resolve w root]} ∪ dirs w) w in
  (os.exists_ w1 lockPath = false ->
   exists w', NewFile name path lockPath w
              = (Some (mkRepository name root lockPath None), None, w'))
  /\ (forall content lines serr,
        lockPath <> "" ->
        files w !! os.resolve w lockPath = Some content ->
        os.resolve w lockPath ∉ dirs w1 ->
        bufio.ScanLines [] content = (lines, serr) ->
        (forall good e rest,
            decoded lines = (inl <$> good) ++ inr e :: rest ->
            exists w', NewFile name path lockPath w
                       = (None, Some (Wrap e "failed to read index file item"), w'))
        /\ (forall ms,
              decoded lines = inl <$> ms -> serr = None ->
              exists its w',
                NewFile name path lockPath w
                = (Some (mkRepository name root lockPath (Some its)), None, w')
                /\ (forall k, its !! k
                              = first_with k (survivors (os.exists_ w1) root ms))
                /\ (forall k m, its !! k = Some m ->
                                ID m = k /\ filepath.IsAbs (Path m) = true
                                /\ os.exists_ w1 (Path m) = true))).
Proof.
  intros Hq Hcwd root Hroot w1.
  assert (filepath.IsAbs root = true) as Habs.
  { unfold root. destruct (filepath.IsAbs path) eqn:E; [done|]. by apply IsAbs_Join. }
  assert (root <> "") as Hne by (by destruct root).
  (* the steps before the index is looked at *)
  assert (exists w2, faults w2 = [] /\ same_disk w1 w2 /\
            NewFile name path lockPath w
            = (st <- os.Stat lockPath;;
               match st with
               | Some _ => ret (Some (mkRepository name root lockPath None), None)
               | None =>
                   fo <- os.Open lockPath;;
                   match fo with
                   | inr e => ret (None, Some (Wrap e "failed to open index file"))
                   | inl f =>
                       sc <- bufio.Scan f;;
                       let '(lines, serr) := sc in
                       r <- load_lines name root lines ∅;;
                       _ <- os.Close f;;
                       match r, serr with
                       | inr e, _ => ret (None, Some e)
                       | inl _, Some e =>
                           ret (None, Some (Wrap e "failed to read index file"))
                       | inl items, None =>
                           ret (Some (mkRepository name root lockPath (Some items)), None)
                       end
                   end
               end)%io w2) as (w2 & Hq2 & S2 & Run).
  { subst w1 root. unfold NewFile, filepath_Abs.
    destruct (filepath.IsAbs path) eqn:Ep; cbv iota in *.
    - rewrite bind_run. simpl. rewrite bind_run.
      rewrite MkdirAll_quiet by done.
      simpl. eexists. split; [|split; [|reflexivity]]; done.
    - rewrite !bind_run. rewrite Getwd_quiet by done. simpl. rewrite bind_run.
      rewrite MkdirAll_quiet by done.
      simpl. eexists. split; [|split; [|reflexivity]]; done. }
  rewrite Run. clear Run.
  pose proof (same_disk_exists _ _ lockPath S2) as Ex2.
  split.
  - intros Hmiss. rewrite bind_run, Stat_quiet by done. rewrite Ex2, Hmiss. simpl.
    by eexists.
  - intros content lines serr Hl Hfile Hdir Hscan.
    assert (os.exists_ w2 lockPath = true) as Hex.
    { rewrite Ex2. unfold os.exists_. apply String.eqb_neq in Hl. rewrite Hl. simpl.
      change (os.resolve w1 lockPath) with (os.resolve w lockPath).
      change (files w1) with (files w). rewrite Hfile.
      rewrite bool_decide_eq_true_2 by eauto. done. }
    rewrite bind_run, Stat_quiet by done. rewrite Hex. simpl.
    rewrite bind_run, Open_quiet by done. simpl.
    rewrite bind_run. unfold bufio.Scan. rewrite bind_run.
    change (os.resolve (logged (SysStat lockPath) w2) lockPath)
      with (os.resolve w2 lockPath).
    rewrite (same_disk_resolve _ _ lockPath S2).
    change (os.resolve w1 lockPath) with (os.resolve w lockPath).
    set (f := os.mkFile (os.resolve w lockPath) 0 false).
    set (w3 := logged (SysOpen lockPath) (logged (SysStat lockPath) w2)).
    assert (same_disk w1 w3) as S3 by exact S2.
    rewrite ReadAll_quiet; [|done|].
    2:{ destruct S3 as (_ & Ed & _). by rewrite Ed. }
    simpl.
    assert (os.contents w3 f = content) as ->.
    { unfold os.contents. destruct S3 as (Ef & _). rewrite Ef. simpl.
      change (files w1) with (files w). by rewrite Hfile. }
    rewrite Hscan. simpl.
    set (w4 := logged _ w3).
    destruct (load_lines_quiet name root lines ∅ w4) as (w5 & EL & Hq5 & S5); [done|].
    rewrite bind_run, EL. simpl.
    assert (forall p, os.exists_ w4 p = os.exists_ w1 p) as Ex4.
    { intros p. by apply (same_disk_exists w1 w4). }
    assert (os.exists_ w4 = os.exists_ w1) as ->.
    { unfold os.exists_. change (files w4) with (files w3). change (dirs w4) with (dirs w3).
      change (os.resolve w4) with (os.resolve w3).
      destruct S3 as (Ef & Ed & Ec). unfold os.resolve. by rewrite Ef, Ed, Ec. }
    split.
    + intros good e rest Hdec. rewrite Hdec, load_records_corrupt.
      rewrite bind_run. simpl. by eexists.
    + intros ms Hdec ->. rewrite Hdec.
      destruct (load_records_clean (os.exists_ w1) root ms ∅) as (its & E & L).
      rewrite E, bind_run. simpl. exists its. eexists. split; [done|].
      assert (forall k, its !! k = first_with k (survivors (os.exists_ w1) root ms)) as L'.
      { intros k. rewrite L. by rewrite lookup_empty. }
      split; [done|]. intros k m Hk. rewrite L' in Hk.
      apply first_with_Some in Hk as [Hin Hid].
      apply survivors_resolved in Hin as (Hx & m0 & _ & ->).
      split; [done|]. split; [by apply resolved_IsAbs|done].
Qed.

Lemma NewFile_reload_witness :
  (exists w', NewFile "r" "/srv" "/srv/index" stocked
              = (Some (mkRepository "r" "/srv" "/srv/index" None), None, w'))
  /\ (exists w', NewFile "r" "/srv" "/srv/index" damaged
                 = (None, Some (Wrap (CodecError "malformed record")
                                     "failed to read index file item"), w'))
  /\ (exists its w', NewFile "r" "/srv" "/srv/index" indexed
                     = (Some (mkRepository "r" "/srv" "/srv/index" (Some its)), None, w')
                     /\ its !! 10%N = Some A
                     /\ its !! 11%N = Some B
                     /\ its !! 12%N = None).
Proof.
  split; [|split].
  - refine (proj1 (NewFile_reload "r" "/srv" "/srv/index" stocked _ _ _) _);
      vm_compute; reflexivity.
  - refine (proj1 (proj2 (NewFile_reload "r" "/srv" "/srv/index" damaged _ _ _)
                     _ _ _ _ _ _ _)
              [mkMedia 10%N FormatImage "a.png" None]
              (CodecError "malformed record") [] _);
      try (vm_compute; reflexivity).
    + discriminate.
    + vm_compute. set_solver.
  - destruct (proj2 (proj2 (NewFile_reload "r" "/srv" "/srv/index" indexed
                              ltac:(reflexivity) ltac:(reflexivity)
                              ltac:(vm_compute; reflexivity))
                       index_text
                       (bufio.ScanLines [] index_text).1
                       (bufio.ScanLines [] index_text).2
                       ltac:(discriminate)
                       ltac:(vm_compute; reflexivity)
                       ltac:(vm_compute; set_solver)
                       ltac:(vm_compute; reflexivity))
                index_records ltac:(vm_compute; reflexivity)
                ltac:(vm_compute; reflexivity))
      as (its & w' & E & L & _).
    exists its, w'. split; [exact E|]. rewrite !L.
    vm_compute. repeat split; reflexivity.
Defined.

(** ** The nil map *)

Lemma syscall_disk (ev : Syscall) (w : World) : same_disk w (os.syscall ev w).2.
Proof. destruct (syscall_files ev w) as (Ef & Ec & Ed). by split. Qed.

Lemma Getwd_disk (w : World) : same_disk w (os.Getwd w).2.
Proof.
  unfold os.Getwd. rewrite bind_run. pose proof (syscall_disk SysGetwd w) as S.
  by destruct (os.syscall SysGetwd w) as [[flt|] w1].
Qed.

Lemma MkdirAll_files (p : string) (w : World) :
  files (os.MkdirAll p w).2 = files w /\ cwd (os.MkdirAll p w).2 = cwd w.
Proof.
  unfold os.MkdirAll. rewrite bind_run.
  destruct (syscall_disk (SysMkdirAll p) w) as (Ef & Ed & Ec).
  destruct (os.syscall _ w) as [[flt|] w1]; simpl in *; [done|].
  destruct (String.eqb p ""); [done|]. by destruct (files w1 !! _).
Qed.

(** [Stat] changes nothing on the disk, and when it returns no error the
    path is there. *)
Lemma Stat_disk (p : string) (w : World) :
  same_disk w (os.Stat p w).2
  /\ ((os.Stat p w).1 = None -> os.exists_ w p = true).
Proof.
  unfold os.Stat. rewrite bind_run.
  pose proof (syscall_disk (SysStat p) w) as S.
  pose proof (same_disk_exists _ _ p S) as Ex.
  destruct (os.syscall _ w) as [[flt|] w1]; simpl in *; [done|].
  destruct (os.exists_ w1 p); [|done]. by split.
Qed.

Lemma Open_disk (p : string) (w : World) :
  same_disk w (os.Open p w).2
  /\ forall f, (os.Open p w).1 = inl f -> os.fpath f = os.resolve w p.
Proof.
  unfold os.Open. rewrite bind_run.
  pose proof (syscall_disk (SysOpen p) w) as S.
  pose proof (same_disk_resolve _ _ p S) as Er.
  destruct (os.syscall _ w) as [[flt|] w1]; simpl in *; [done|].
  destruct (os.exists_ w1 p); [|done]. split; [done|].
  intros f [= <-]. done.
Qed.

(** A scanner on a directory ends with an error. *)
Lemma Scan_directory (f : os.File) (w : World) :
  os.fpath f ∈ dirs w -> (bufio.Scan f w).1.2 <> None.
Proof.
  intros Hd. unfold bufio.Scan, os.ReadAll. rewrite !bind_run.
  destruct (syscall_disk (SysRead (os.fpath f)) w) as (_ & Ed & _).
  destruct (os.syscall _ w) as [[flt|] w1]; simpl in *.
  - destruct (bufio.ScanLines [] _) as [toks [e|]]; done.
  - rewrite bool_decide_eq_true_2 by (by rewrite Ed). simpl.
    done.
Qed.

(** [NewFile] returns a repository with a map only when it found a regular
    file at the index path. *)
Lemma NewFile_items {codec : Codec} (name path lockPath : string) (w w' : World)
    (r : Repository) (e : option error) :
  NewFile name path lockPath w = (Some r, e, w') ->
  items r = None \/ is_Some (files w !! os.resolve w lockPath).
Proof.
  unfold NewFile. rewrite bind_run.
  set (pa := (if filepath.IsAbs path then ret (inl path) else filepath_Abs path) w).
  assert (files pa.2 = files w /\ cwd pa.2 = cwd w) as (Ef0 & Ec0).
  { unfold pa, filepath_Abs. destruct (filepath.IsAbs path); [done|].
    rewrite bind_run. destruct (Getwd_disk w) as (Ef & _ & Ec).
    by destruct (os.Getwd w) as [[wd|e0] w0']. }
  destruct pa as [[root|e0] w0']; simpl in *; [|done].
  rewrite bind_run. destruct (MkdirAll_files root w0') as (Ef1 & Ec1).
  destruct (os.MkdirAll root w0') as [[e1|] w1]; simpl in *; [done|].
  rewrite bind_run. destruct (Stat_disk lockPath w1) as (S2 & Hst).
  destruct (os.Stat lockPath w1) as [[e2|] w2]; simpl in *.
  { intros [= <- _ _]. by left. }
  specialize (Hst eq_refl).
  rewrite bind_run. destruct (Open_disk lockPath w2) as (S3 & Hf).
  destruct (os.Open lockPath w2) as [[f|e3] w3]; simpl in *; [|done].
  specialize (Hf f eq_refl).
  rewrite bind_run. pose proof (Scan_directory f w3) as Hdir.
  destruct (bufio.Scan f w3) as [[lines serr] w4]; simpl in *.
  rewrite bind_run. destruct (load_lines _ _ _ _ w4) as [[its|e4] w5]; simpl.
  2:{ rewrite bind_run. done. }
  rewrite bind_run. simpl. destruct serr as [e5|]; [done|].
  intros _. right.
  unfold os.exists_ in Hst. apply andb_true_iff in Hst as [_ Hst].
  apply orb_true_iff in Hst as [Hfile|Hd].
  - apply bool_decide_eq_true in Hfile.
    replace (os.resolve w1 lockPath) with (os.resolve w lockPath) in Hfile
      by (unfold os.resolve; by rewrite Ec1, Ec0).
    by rewrite Ef1, Ef0 in Hfile.
  - apply bool_decide_eq_true in Hd. exfalso. apply Hdir; [|done].
    rewrite Hf. rewrite (same_disk_resolve _ _ lockPath S2).
    destruct S3 as (_ & -> & _). destruct S2 as (_ & -> & _). done.
Qed.

(** C10. [NewMemory] leaves the map nil, and so does [NewFile] when there
    is no file at the index path.  On a repository with the nil map every
    read is defined: [Get] finds nothing, [Items] is empty, [Random] is
    empty for every [n] and does not panic; [Remove] leaves the map nil;
    [Add] is what allocates it, with the added entity as its only entry,
    and [Create] changes the map only through [Add]. *)
Theorem nil_map_reads {codec : Codec} {sniffer : Sniffer} :
  (forall name, items (NewMemory name) = None)
  /\ (forall name path lockPath w w' r e,
        NewFile name path lockPath w = (Some r, e, w') ->
        files w !! os.resolve w lockPath = None ->
        items r = None)
  /\ (forall r, items r = None ->
        (forall k, Get r k = None)
        /\ (forall w, Items r w = ([], w))
        /\ (forall n w, Random r n w = (Some [], w))
        /\ (forall k w, items (Remove r k w).1.2 = None)
        /\ (forall m w, items (Add r m w).1.2 = Some {[ID m := m]})
        /\ (forall b m w,
              (Create r b m w).1.2 = r
              \/ exists m0, items (Create r b m w).1.2 = Some {[ID m0 := m0]})).
Proof.
  split; [done|]. split.
  - intros name path lockPath w w' r e E Hno.
    destruct (NewFile_items _ _ _ _ _ _ _ E) as [Hnil|[x Hx]]; [done|congruence].
  - intros r Hnil. split; [|split; [|split; [|split; [|split]]]].
    + intros k. unfold Get. by rewrite Hnil.
    + intros w. unfold Items. by rewrite Hnil.
    + intros n w. unfold Random, Items. rewrite Hnil.
      destruct (n <=? 0)%Z; [done|]. unfold bind, rand.Shuffle; simpl.
      rewrite take_nil. by destruct (n <? Z.of_nat 0)%Z.
    + intros k w. rewrite Remove_run. simpl. by rewrite Hnil.
    + intros m w. pose proof (Add_cases r m w) as C. unfold Get in C.
      rewrite Hnil in C. simpl in C. rewrite C. simpl. by rewrite insert_empty.
    + intros b m w. destruct (Create r b m w) as [[[x e] r'] w'] eqn:E. simpl.
      destruct (Create_repository _ _ _ _ _ _ _ _ E) as [->|(m0 & w3 & w4 & err & EA)];
        [by left|].
      right. exists m0. pose proof (Add_cases r m0 w3) as C. unfold Get in C.
      rewrite Hnil in C. simpl in C. rewrite C in EA. inversion EA.
      simpl. by rewrite insert_empty.
Qed.

Lemma nil_map_reads_witness :
  items (NewMemory "mem") = None
  /\ (forall r e w',
        NewFile "r" "/srv" "/srv/index" stocked = (Some r, e, w') -> items r = None)
  /\ Get (NewMemory "mem") 10%N = None
  /\ Items (NewMemory "mem") dice = ([], dice)
  /\ Random (NewMemory "mem") 3 dice = (Some [], dice)
  /\ items (Remove (NewMemory "mem") 10%N w0).1.2 = None
  /\ items (Add (NewMemory "mem") A w0).1.2 = Some {[ID A := A]}.
Proof.
  pose proof (@nil_map_reads line_codec magic_sniffer) as (H1 & H2 & H3).
  destruct (H3 (NewMemory "mem") (H1 "mem")) as (G & I & R & D & Ad & _).
  split; [apply H1|]. split.
  - intros r e w' E. apply (H2 _ _ _ _ _ _ _ E). vm_compute. reflexivity.
  - split; [apply G|]. split; [apply I|]. split; [apply R|].
    split; [apply D|apply Ad].
Defined.

(** ** [NewFile] stores every entity under its own id *)

Section KeyedReload.
Context {codec : Codec}.

Lemma load_line_keyed (name root : string) (line : bytes)
    (acc acc' : gmap UUID Media) (w w' : World) :
  keyed_map acc -> load_line name root line acc w = (inl acc', w') -> keyed_map acc'.
Proof.
  intros Hk. unfold load_line. destruct line as [|b line].
  { by intros [= <- _]. }
  destruct (json_Unmarshal (b :: line)) as [m|e]; [|done].
  destruct (acc !! ID m) eqn:Eacc.
  { rewrite bind_run. by intros [= <- _]. }
  rewrite bind_run. destruct (os.Stat _ w) as [st w1]. simpl.
  destruct (match st with Some e => is_not_exist e | None => false end).
  { rewrite bind_run. by intros [= <- _]. }
  intros [= <- _]. intros k x.
  destruct (decide (ID m = k)) as [<-|Hne].
  - rewrite lookup_insert_eq. by intros [= <-].
  - rewrite lookup_insert_ne by done. apply Hk.
Qed.

Lemma load_lines_keyed (name root : string) (lines : list bytes)
    (acc acc' : gmap UUID Media) (w w' : World) :
  keyed_map acc -> load_lines name root lines acc w = (inl acc', w') -> keyed_map acc'.
Proof.
  revert acc w. induction lines as [|line lines IH]; intros acc w Hk.
  { by intros [= <- _]. }
  simpl. rewrite bind_run.
  destruct (load_line name root line acc w) as [[acc1|e] w1] eqn:E1; simpl; [|done].
  apply IH. by eapply load_line_keyed.
Qed.

Lemma keyed_NewFile (name path lockPath : string) (w w' : World)
    (r : Repository) (e : option error) :
  NewFile name path lockPath w = (Some r, e, w') -> keyed r.
Proof.
  unfold NewFile. rewrite bind_run.
  destruct ((if filepath.IsAbs path then ret (inl path) else filepath_Abs path) w)
    as [[root|e0] w0']; simpl; [|done].
  rewrite bind_run. destruct (os.MkdirAll root w0') as [[e1|] w1]; simpl; [done|].
  rewrite bind_run. destruct (os.Stat lockPath w1) as [[e2|] w2]; simpl.
  { intros [= <- _ _]. by apply keyed_nil. }
  rewrite bind_run. destruct (os.Open lockPath w2) as [[f|e3] w3]; simpl; [|done].
  rewrite bind_run. destruct (bufio.Scan f w3) as [[lines serr] w4]; simpl.
  rewrite bind_run.
  destruct (load_lines name root lines ∅ w4) as [[its|e4] w5] eqn:EL; simpl.
  2:{ by rewrite bind_run. }
  rewrite bind_run. simpl. destruct serr as [e5|]; [done|].
  intros [= <- _ _]. intros k m. unfold Get. simpl.
  eapply load_lines_keyed; [|exact EL]. intros k' m'. by rewrite lookup_empty.
Qed.

End KeyedReload.

(** ** The index after [Remove]: [save] writes over the old index *)

Section InPlace.
Context {codec : Codec}.

Lemma Write_quiet (f : os.File) (b : bytes) (w : World) :
  faults w = [] ->
  os.Write f b w
  = ((os.put f b (logged (SysWrite (os.fpath f) (length b)) w)).1, None,
     (os.put f b (logged (SysWrite (os.fpath f) (length b)) w)).2).
Proof. intros E. unfold os.Write, bind. by rewrite syscall_quiet. Qed.

(** Writing [l] at the end of what has been written keeps the old bytes
    behind it. *)
Lemma pwrite_behind (written l old : bytes) :
  os.pwrite (written ++ drop (length written) old) (length written) l
  = (written ++ l) ++ drop (length (written ++ l)) old.
Proof.
  unfold os.pwrite. rewrite take_app_length.
  replace (length written - length (written ++ drop (length written) old)) with 0
    by (rewrite length_app; lia).
  simpl. rewrite drop_app_add, drop_drop, length_app, <- app_assoc. done.
Qed.

(** The loop of [save] on a handle that stands behind [written]. *)
Lemma save_loop_quiet (r : Repository) (ms : list Media) (f : os.File)
    (w : World) (written old new : bytes) :
  faults w = [] ->
  os.fappend f = false ->
  os.offset f = length written ->
  files w !! os.fpath f = Some (written ++ drop (length written) old) ->
  index_lines r ms = Some new ->
  exists f' w',
    save_loop r f ms w = (f', None, w')
    /\ faults w' = [] /\ os.fpath f' = os.fpath f
    /\ files w' = <[os.fpath f := (written ++ new) ++ drop (length (written ++ new)) old]>
                    (files w).
Proof.
  revert f w written new. induction ms as [|m ms IH]; intros f w written new Hq Ha Ho Hf Hn.
  { injection Hn as <-. exists f, w. rewrite app_nil_r.
    split; [done|]. split; [done|]. split; [done|]. by rewrite insert_id. }
  simpl in Hn. unfold index_line in Hn. simpl. rewrite bind_run. unfold write.
  destruct (json_Marshal _) as [b|e]; [|done].
  destruct (index_lines r ms) as [ls|] eqn:Els; [|done]. injection Hn as <-.
  rewrite bind_run, Write_quiet by done. simpl.
  unfold os.put. rewrite Ha. simpl.
  set (w1 := set_files _ _).
  set (f1 := os.mkFile _ _ _).
  assert (os.contents (logged (SysWrite (os.fpath f) (length (b ++ [NL]))) w) f
          = written ++ drop (length written) old) as Ec.
  { unfold os.contents. simpl. by rewrite Hf. }
  destruct (IH f1 w1 (written ++ (b ++ [NL])) ls) as (f' & w' & E & Hq' & Hp & Hfs);
    try done.
  - subst f1. simpl. rewrite Ho, !length_app. simpl. lia.
  - subst w1 f1. simpl. rewrite lookup_insert_eq, Ec, Ho. by rewrite pwrite_behind.
  - exists f', w'. rewrite E. split; [done|]. split; [done|]. split; [done|].
    rewrite Hfs. subst w1 f1. simpl. rewrite insert_insert_eq.
    by rewrite <- !app_assoc.
Qed.

Lemma maps_Values_orders (its : option (gmap UUID Media)) (w w1 : World) :
  orders w1 = orders w ->
  (maps_Values its w1).1 = (maps_Values its w).1
  /\ faults (maps_Values its w1).2 = faults w1
  /\ files (maps_Values its w1).2 = files w1.
Proof.
  intros Eo. unfold maps_Values. destruct its as [m|]; [|done].
  rewrite !bind_run. unfold runtime.range. rewrite Eo.
  by destruct (orders w).
Qed.

(** X15. After a [Remove] that meets no failure, the index holds the lines of
    the surviving entities and, behind them, what the old index held
    beyond their length: the file is not truncated. *)
Lemma Remove_index_contents (r : Repository) (k : UUID) (w : World) (old new : bytes) :
  lockPath r <> "" ->
  faults w = [] ->
  os.resolve w (lockPath r) ∉ dirs w ->
  files w !! os.resolve w (lockPath r) = Some old ->
  let r' := set_items (delete k <$> items r) r in
  index_lines r' (Items r' w).1 = Some new ->
  exists w',
    Remove r k w = (None, r', w')
    /\ files w' = <[os.resolve w (lockPath r) := new ++ drop (length new) old]> (files w).
Proof.
  intros Hl Hq Hd Hold r' Hnew. rewrite Remove_run. fold r'.
  unfold save. change (lockPath r') with (lockPath r).
  pose proof Hl as Hl'. apply String.eqb_neq in Hl'. rewrite Hl'.
  rewrite bind_run.
  assert (os.OpenFile (lockPath r) flag_create w
          = (inl (os.mkFile (os.resolve w (lockPath r)) 0 false),
             logged (SysOpenFile (lockPath r) flag_create) w)) as ->.
  { unfold os.OpenFile, bind. rewrite syscall_quiet by done.
    change (os.resolve (logged (SysOpenFile (lockPath r) flag_create) w) (lockPath r))
      with (os.resolve w (lockPath r)).
    rewrite Hl'. simpl. rewrite bool_decide_eq_false_2 by done. by rewrite Hold. }
  simpl. rewrite bind_run.
  set (w1 := logged _ w). set (f := os.mkFile _ _ _).
  destruct (maps_Values_orders (items r') w w1 eq_refl) as (Ev & Eq2 & Ef2).
  unfold Items in Hnew. change (items r') with (delete k <$> items r) in *.
  rewrite Ev.
  destruct (save_loop_quiet r' (maps_Values (delete k <$> items r) w).1 f
              (maps_Values (delete k <$> items r) w1).2
              [] old new) as (f' & w3 & E & Hq3 & Hp & Hfs); try done.
  { by rewrite Eq2. }
  { simpl. by rewrite Ef2. }
  rewrite bind_run, E. simpl. rewrite bind_run, Close_quiet by done. simpl.
  eexists. split; [done|]. simpl. by rewrite Hfs, Ef2.
Qed.

End InPlace.

(** C1, on the code.  [A] and [B] are added to the repository on [/srv]
    and [B] is removed again.  [Remove] returns no error and [B] is gone
    from the map, but the index file was opened without truncation and only
    its first line was rewritten: it still holds the record of [B] behind
    the record of [A], and a repository constructed from this index has
    [B] again. *)
Theorem Remove_leaves_removed_record_in_index :
  let r2 := (calls [CallAdd A; CallAdd B] srv stocked).1 in
  let w2 := (calls [CallAdd A; CallAdd B] srv stocked).2 in
  let r3 := (Remove r2 (ID B) w2).1.2 in
  let w3 := (Remove r2 (ID B) w2).2 in
  (Remove r2 (ID B) w2).1.1 = None
  /\ Get r3 (ID B) = None
  /\ (Items r3 w3).1 = [A]
  /\ (exists la lb,
        index_line r3 A = inl la /\ index_line r3 B = inl lb
        /\ files w2 !! "/srv/index" = Some (la ++ lb)
        /\ files w3 !! "/srv/index" = Some (la ++ lb)
        /\ la ++ lb <> la)
  /\ (exists r4 w4,
        NewFile "r" "/srv" "/srv/index" w3 = (Some r4, None, w4)
        /\ Get r4 (ID B) = Some B).
Proof.
  split; [|split; [|split; [|split]]]; try (vm_compute; reflexivity).
  - eexists _, _. vm_compute. repeat split; try reflexivity. discriminate.
  - eexists _, _. vm_compute. split; reflexivity.
Qed.

(** * Further properties of the repository *)

(** ** What [Add] does to the index *)

Section Appending.
Context {codec : Codec}.

Lemma pwrite_end (old data : bytes) : os.pwrite old (length old) data = old ++ data.
Proof.
  unfold os.pwrite. rewrite take_ge by lia. rewrite Nat.sub_diag. simpl.
  rewrite drop_ge by lia. by rewrite app_nil_r.
Qed.

(** With [O_APPEND|O_CREATE] and no failure the index is opened as it is,
    or created empty. *)
Lemma OpenFile_append_quiet (name : string) (w : World) :
  faults w = [] -> name <> "" -> os.resolve w name ∉ dirs w ->
  exists w1,
    os.OpenFile name flag_append_create w
    = (inl (os.mkFile (os.resolve w name) 0 true), w1)
    /\ faults w1 = [] /\ dirs w1 = dirs w /\ cwd w1 = cwd w
    /\ files w1 = <[os.resolve w name := default [] (files w !! os.resolve w name)]> (files w).
Proof.
  intros Hq Hn Hd. apply String.eqb_neq in Hn.
  unfold os.OpenFile, bind. rewrite syscall_quiet by done.
  change (os.resolve (logged (SysOpenFile name flag_append_create) w) name)
    with (os.resolve w name).
  rewrite Hn. simpl. rewrite bool_decide_eq_false_2 by done.
  destruct (files w !! os.resolve w name) as [old|] eqn:E; simpl.
  - eexists. split; [done|]. simpl. by rewrite insert_id.
  - eexists. split; [done|]. done.
Qed.

(** X1. A new entity makes [Add] append exactly one line to the index. *)
Theorem Add_appends_one_line (r : Repository) (m : Media) (w : World) (line : bytes) :
  lockPath r <> "" ->
  faults w = [] ->
  os.resolve w (lockPath r) ∉ dirs w ->
  Get r (ID m) = None ->
  index_line r m = inl line ->
  exists r' w',
    Add r m w = (None, r', w')
    /\ Get r' (ID m) = Some m
    /\ files w' = <[os.resolve w (lockPath r) :=
                     default [] (files w !! os.resolve w (lockPath r)) ++ line]> (files w)
    /\ dirs w' = dirs w.
Proof.
  intros Hl Hq Hd Hg Hline. pose proof (Add_cases r m w) as C. rewrite Hg in C.
  simpl in C. rewrite C. clear C.
  set (r' := set_items _ r). exists r'.
  unfold saveSingle. change (lockPath r') with (lockPath r).
  pose proof Hl as Hl'. apply String.eqb_neq in Hl'. rewrite Hl'.
  destruct (OpenFile_append_quiet (lockPath r) w Hq Hl Hd)
    as (w1 & EO & Hq1 & Hd1 & Hc1 & Hf1).
  rewrite bind_run, EO. simpl. rewrite bind_run. unfold write.
  change (path r') with (path r). unfold index_line in Hline.
  destruct (json_Marshal _) as [b|e]; [|done]. injection Hline as <-.
  rewrite bind_run, Write_quiet by done. simpl.
  rewrite bind_run, Close_quiet by done. simpl.
  eexists. split; [done|]. split; [by apply lookup_insert_eq|].
  split; [|done]. simpl. unfold os.contents. simpl.
  rewrite Hf1, lookup_insert_eq, insert_insert_eq. by rewrite pwrite_end.
Qed.

End Appending.

Lemma Add_appends_one_line_witness :
  exists r' w',
    Add (Add srv A stocked).1.2 B (Add srv A stocked).2 = (None, r', w')
    /\ files w' !! "/srv/index"
       = Some ((bytes_of_string "00000000-0000-0000-0000-00000000000a 1 a.png" ++ [NL])
               ++ (bytes_of_string "00000000-0000-0000-0000-00000000000b 2 b.gif" ++ [NL])).
Proof.
  set (r1 := (Add srv A stocked).1.2). set (w1 := (Add srv A stocked).2).
  set (lb := bytes_of_string "00000000-0000-0000-0000-00000000000b 2 b.gif" ++ [NL]).
  assert (lockPath r1 <> "") as H1 by (vm_compute; discriminate).
  assert (faults w1 = []) as H2 by (vm_compute; reflexivity).
  assert (os.resolve w1 (lockPath r1) ∉ dirs w1) as H3
    by (apply (bool_decide_unpack _); vm_compute; exact I).
  assert (Get r1 (ID B) = None) as H4 by (vm_compute; reflexivity).
  assert (index_line r1 B = inl lb) as H5 by (vm_compute; reflexivity).
  destruct (Add_appends_one_line r1 B w1 lb H1 H2 H3 H4 H5) as (r' & w' & E & _ & Ef & _).
  exists r', w'. split; [exact E|]. rewrite Ef.
  replace (os.resolve w1 (lockPath r1)) with "/srv/index" by (vm_compute; reflexivity).
  rewrite lookup_insert_eq. vm_compute. reflexivity.
Defined.

(** X2. The insertion is not rolled back.  Whatever [Add] returns for a new
    id, also an error of the index append, the entity is in the map
    afterwards and the other ids are as before. *)
Theorem Add_inserts_whatever_the_index_does {codec : Codec}
    (r r' : Repository) (m : Media) (w w' : World) (e : option error) :
  Get r (ID m) = None ->
  Add r m w = (e, r', w') ->
  Get r' (ID m) = Some m
  /\ (forall k, k <> ID m -> Get r' k = Get r k)
  /\ Repository_ID r' = Repository_ID r
  /\ Repository_Path r' = Repository_Path r
  /\ Repository_LockPath r' = Repository_LockPath r.
Proof.
  intros Hg E. split; [|split].
  - rewrite (Get_Add _ _ _ _ _ _ (ID m) E), Hg. by rewrite decide_True.
  - intros k Hk. rewrite (Get_Add _ _ _ _ _ _ k E), Hg. by rewrite decide_False.
  - pose proof (Add_cases r m w) as C. rewrite Hg in C. simpl in C.
    rewrite C in E. by inversion E.
Qed.

Lemma Add_inserts_whatever_the_index_does_witness :
  exists r' w',
    Add srv A open_fails
    = (Some (Wrap (PathError "open" "/srv/index" EACCES) "failed to open index file"),
       r', w')
    /\ Get r' (ID A) = Some A.
Proof.
  eexists _, _. split; [vm_compute; reflexivity|].
  refine (proj1 (Add_inserts_whatever_the_index_does srv _ A open_fails _ _ _ _)).
  - reflexivity.
  - vm_compute. reflexivity.
Defined.

(** ** No failure of the index is swallowed by [Add] and [Remove] *)

Section Unfailed.
Context {codec : Codec}.

Lemma unfailed_same (w w' : World) : faults w' = faults w -> unfailed w w'.
Proof. intros E. exists 0. by rewrite E. Qed.

Lemma unfailed_trans (w1 w2 w3 : World) :
  unfailed w1 w2 -> unfailed w2 w3 -> unfailed w1 w3.
Proof.
  intros [n E1] [k E2]. exists (n + k).
  by rewrite E1, E2, replicate_add, app_assoc.
Qed.

Lemma syscall_unfailed (ev : Syscall) (w w' : World) :
  os.syscall ev w = (None, w') -> unfailed w w'.
Proof.
  unfold os.syscall. destruct (faults w) as [|flt rest] eqn:E.
  - intros [= <-]. by apply unfailed_same.
  - intros [= -> <-]. exists 1. by rewrite E.
Qed.

Lemma OpenFile_unfailed (name : string) (flag : OpenFlags) (w w' : World) (f : os.File) :
  os.OpenFile name flag w = (inl f, w') -> unfailed w w'.
Proof.
  unfold os.OpenFile. rewrite bind_run.
  destruct (os.syscall _ w) as [[flt|] w1] eqn:ES; simpl; [done|].
  apply syscall_unfailed in ES. intros E. eapply unfailed_trans; [exact ES|].
  apply unfailed_same.
  destruct (String.eqb name ""); [done|]. destruct (bool_decide _); [done|].
  destruct (files w1 !! _).
  - destruct (O_CREATE flag && O_EXCL flag); [done|].
    injection E as _ <-. by destruct (O_TRUNC flag).
  - destruct (O_CREATE flag); [|done]. by injection E as _ <-.
Qed.

Lemma Write_unfailed (f f' : os.File) (b : bytes) (w w' : World) :
  os.Write f b w = (f', None, w') -> unfailed w w'.
Proof.
  unfold os.Write. rewrite bind_run.
  destruct (os.syscall _ w) as [[flt|] w1] eqn:ES; simpl; [done|].
  apply syscall_unfailed in ES. intros [= _ <-].
  eapply unfailed_trans; [exact ES|]. by apply unfailed_same.
Qed.

Lemma Close_unfailed (f : os.File) (w w' : World) :
  os.Close f w = (None, w') -> unfailed w w'.
Proof.
  unfold os.Close. rewrite bind_run.
  destruct (os.syscall _ w) as [[flt|] w1] eqn:ES; simpl; [done|].
  apply syscall_unfailed in ES. by intros [= <-].
Qed.

Lemma write_unfailed (r : Repository) (f f' : os.File) (m : Media) (w w' : World) :
  write r f m w = (f', None, w') -> unfailed w w'.
Proof.
  unfold write. destruct (json_Marshal _) as [b|e]; [|done].
  rewrite bind_run. destruct (os.Write f _ w) as [[f1 [e|]] w1] eqn:EW; simpl; [done|].
  intros [= _ <-]. by eapply Write_unfailed.
Qed.

Lemma save_loop_unfailed (r : Repository) (ms : list Media) (f f' : os.File)
    (w w' : World) :
  save_loop r f ms w = (f', None, w') -> unfailed w w'.
Proof.
  revert f w. induction ms as [|m ms IH]; intros f w; simpl.
  { intros [= _ <-]. by apply unfailed_same. }
  rewrite bind_run. destruct (write r f m w) as [[f1 [e|]] w1] eqn:EW; simpl; [done|].
  intros E. eapply unfailed_trans; [by eapply write_unfailed|by eapply IH].
Qed.

Lemma maps_Values_faults (its : option (gmap UUID Media)) (w : World) :
  faults (maps_Values its w).2 = faults w.
Proof.
  unfold maps_Values. destruct its as [m|]; [|done].
  rewrite bind_run. unfold runtime.range. by destruct (orders w).
Qed.

Lemma Append_Some (err : option error) (e : error) :
  multierr.Append err (Some e) <> None.
Proof. by destruct err. Qed.

Lemma saveSingle_unfailed (r : Repository) (m : Media) (w w' : World) :
  saveSingle r m w = (None, w') -> unfailed w w'.
Proof.
  unfold saveSingle. destruct (String.eqb _ _).
  { intros [= <-]. by apply unfailed_same. }
  rewrite bind_run. destruct (os.OpenFile _ _ w) as [[f|e] w1] eqn:EO; simpl; [|done].
  rewrite bind_run. destruct (write r f m w1) as [[f1 err] w2] eqn:EW; simpl.
  unfold bind at 1. destruct (os.Close f1 w2) as [[e0|] w3] eqn:EC; simpl.
  { unfold ret; cbv beta. intros E0. apply (f_equal fst) in E0. simpl in E0.
    by apply Append_Some in E0. }
  unfold ret; cbv beta. intros [= -> <-].
  eapply unfailed_trans; [by eapply OpenFile_unfailed|].
  eapply unfailed_trans; [by eapply write_unfailed|by eapply Close_unfailed].
Qed.

Lemma save_unfailed (r : Repository) (w w' : World) :
  save r w = (None, w') -> unfailed w w'.
Proof.
  unfold save. destruct (String.eqb _ _).
  { intros [= <-]. by apply unfailed_same. }
  unfold bind.
  destruct (os.OpenFile _ _ w) as [[f|e] w1] eqn:EO; [|done].
  pose proof (maps_Values_faults (items r) w1) as Ev.
  destruct (maps_Values (items r) w1) as [ms w2]. simpl in Ev.
  destruct (save_loop r f ms w2) as [[f1 err] w3] eqn:EL.
  destruct (os.Close f1 w3) as [[e0|] w4] eqn:EC; unfold ret.
  { intros E0. apply (f_equal fst) in E0. simpl in E0. by apply Append_Some in E0. }
  intros E0. injection E0 as -> <-.
  eapply unfailed_trans; [by eapply OpenFile_unfailed|].
  eapply unfailed_trans; [by apply unfailed_same|].
  eapply unfailed_trans; [by eapply save_loop_unfailed|by eapply Close_unfailed].
Qed.

End Unfailed.

(** X3. [Add] and [Remove] return no error only when none of the system
    calls they made failed: a failure to open, write or close the index
    always reaches the caller. *)
Theorem Add_Remove_report_every_failure {codec : Codec}
    (r r' : Repository) (w w' : World) :
  (forall m, Add r m w = (None, r', w') -> unfailed w w')
  /\ (forall k, Remove r k w = (None, r', w') -> unfailed w w').
Proof.
  split.
  - intros m E. pose proof (Add_cases r m w) as C.
    destruct (Get r (ID m)); [by rewrite C in E|]. simpl in C. rewrite C in E.
    destruct (saveSingle _ m w) as [e w1] eqn:ES. simpl in E.
    injection E as -> _ <-. by eapply saveSingle_unfailed.
  - intros k E. rewrite Remove_run in E.
    destruct (save _ w) as [e w1] eqn:ES. simpl in E.
    injection E as -> _ <-. by eapply save_unfailed.
Qed.

Lemma Add_Remove_report_every_failure_witness :
  unfailed later_failure (Add srv A later_failure).2
  /\ unfailed later_failure (Remove srv (ID A) later_failure).2.
Proof.
  split.
  - refine (proj1 (Add_Remove_report_every_failure srv _ later_failure _) A _).
    vm_compute. reflexivity.
  - refine (proj2 (Add_Remove_report_every_failure srv _ later_failure _) (ID A) _).
    vm_compute. reflexivity.
Defined.

(** ** [Remove] *)

(** X4. Removing an id that is not there leaves the repository as it is,
    and removing an id twice gives what removing it once gives. *)
Theorem Remove_idempotent {codec : Codec} (r : Repository) (k : UUID) (w w2 : World) :
  let r1 := (Remove r k w).1.2 in
  (Remove r1 k w2).1.2 = r1
  /\ (Get r k = None -> r1 = r).
Proof.
  rewrite (Remove_run r k w). simpl. split.
  - rewrite Remove_run. simpl. unfold set_items. simpl. f_equal.
    destruct (items r) as [its|]; simpl; [|done]. by rewrite delete_delete_eq.
  - unfold Get. destruct r as [i p l [its|]]; unfold set_items; simpl; [|done].
    intros Hk. by rewrite delete_id.
Qed.

Lemma Remove_idempotent_witness :
  (Remove (Remove three (ID B) w0).1.2 (ID B) dice).1.2 = (Remove three (ID B) w0).1.2
  /\ (Remove three 99%N w0).1.2 = three.
Proof.
  split.
  - apply (Remove_idempotent three (ID B) w0 dice).
  - apply (Remove_idempotent three 99%N w0 w0). vm_compute. reflexivity.
Defined.

(** ** Which files the operations write *)

Section OnlyTheIndex.
Context {codec : Codec}.

Lemma save_loop_files (r : Repository) (ms : list Media) (f : os.File) (w : World)
    (q : string) :
  q <> os.fpath f -> files (save_loop r f ms w).2 !! q = files w !! q.
Proof.
  intros Hq. revert f w Hq. induction ms as [|m ms IH]; intros f w Hq; simpl; [done|].
  rewrite bind_run. destruct (write_files r f m w q Hq) as [E1 E2].
  destruct (write r f m w) as [[f1 [e|]] w1]; simpl in *; [done|].
  rewrite IH by (by rewrite E2). done.
Qed.

Lemma maps_Values_files (its : option (gmap UUID Media)) (w : World) :
  files (maps_Values its w).2 = files w.
Proof.
  unfold maps_Values. destruct its as [m|]; [|done].
  rewrite bind_run. unfold runtime.range. by destruct (orders w).
Qed.

Lemma save_files (r : Repository) (w : World) (q : string) :
  q <> os.resolve w (lockPath r) -> files (save r w).2 !! q = files w !! q.
Proof.
  intros Hq. unfold save. destruct (String.eqb _ _); [done|]. unfold bind.
  pose proof (OpenFile_files (lockPath r) flag_create w q Hq) as E1.
  destruct (os.OpenFile _ _ w) as [[f|e] w1] eqn:EO; simpl in *; [|done].
  apply OpenFile_fpath in EO as (Ep & _).
  pose proof (maps_Values_files (items r) w1) as E2.
  destruct (maps_Values (items r) w1) as [ms w2]. simpl in E2.
  pose proof (save_loop_files r ms f w2 q ltac:(by rewrite Ep)) as E3.
  destruct (save_loop r f ms w2) as [[f1 err] w3]. simpl in E3.
  pose proof (Close_files f1 w3) as E4.
  destruct (os.Close f1 w3) as [[e0|] w4]; simpl in *; by rewrite E4, E3, E2.
Qed.

End OnlyTheIndex.

(** X5. [Remove] writes the index and nothing else; in particular the file
    of the removed asset stays on the disk as it is. *)
Theorem Remove_writes_only_the_index {codec : Codec}
    (r : Repository) (k : UUID) (w : World) (q : string) :
  q <> os.resolve w (lockPath r) ->
  files (Remove r k w).2 !! q = files w !! q.
Proof.
  intros Hq. rewrite Remove_run. simpl. by apply (save_files (set_items _ r)).
Qed.

Lemma Remove_writes_only_the_index_witness :
  files (Remove (calls [CallAdd A; CallAdd B] srv stocked).1 (ID B)
                (calls [CallAdd A; CallAdd B] srv stocked).2).2 !! "/srv/b.gif"
  = Some gif_payload.
Proof.
  rewrite (Remove_writes_only_the_index _ (ID B) _ "/srv/b.gif").
  - vm_compute. reflexivity.
  - vm_compute. discriminate.
Defined.

(** X6. [Create] writes the destination of the asset and the index, and
    no other file. *)
Theorem Create_writes_only_asset_and_index {codec : Codec} {sniffer : Sniffer}
    (r : Repository) (b : bytes) (m : option Metadata) (w : World) (q : string) :
  q <> os.resolve w (destination r (uuid_New w).1 b) ->
  q <> os.resolve w (lockPath r) ->
  files (Create r b m w).2 !! q = files w !! q.
Proof.
  intros Hd Hl. destruct (decide (path r = "")) as [Hp|Hp].
  { by rewrite Create_memory. }
  rewrite Create_run by done.
  assert (cwd (uuid_New w).2 = cwd w /\ files (uuid_New w).2 = files w) as (Ec1 & Ef1).
  { unfold uuid_New. by destruct (uuids w). }
  set (dest := destination r (uuid_New w).1 b) in *.
  assert (os.resolve (uuid_New w).2 dest = os.resolve w dest) as Er1
    by (unfold os.resolve; by rewrite Ec1).
  pose proof (OpenFile_files dest flag_create (uuid_New w).2 q ltac:(by rewrite Er1)) as E1.
  destruct (os.OpenFile dest flag_create (uuid_New w).2) as [[f|e] w2] eqn:EO;
    simpl in *; [|by rewrite E1, Ef1].
  apply OpenFile_fpath in EO as (Ep & _ & _ & Ec2).
  pose proof (Write_files f b w2 q ltac:(by rewrite Ep, Er1)) as E2.
  pose proof (Write_cwd f b w2) as Ec3.
  destruct (os.Write f b w2) as [[f' [e|]] w3]; simpl in *.
  { by rewrite Close_files, E2, E1, Ef1. }
  assert (q <> os.resolve w3 (lockPath r)) as Hl3.
  { unfold os.resolve in *. by rewrite Ec3, Ec2, Ec1. }
  pose proof (Add_files r (entity r (uuid_New w).1 b m) w3 q Hl3) as E3.
  destruct (Add r _ w3) as [[err r'] w4]. simpl in *.
  by rewrite Close_files, E3, E2, E1, Ef1.
Qed.

Lemma Create_writes_only_asset_and_index_witness :
  files (Create srv gif_payload None stocked).2 !! "/srv/a.png"
  = Some (bytes_of_string "PNG").
Proof.
  rewrite (Create_writes_only_asset_and_index srv gif_payload None stocked "/srv/a.png").
  - vm_compute. reflexivity.
  - vm_compute. discriminate.
  - vm_compute. discriminate.
Defined.

(** ** What [Create] returns *)

(** The results of [Create], case by case. *)
Lemma Create_outcome {codec : Codec} {sniffer : Sniffer}
    (r r' : Repository) (b : bytes) (m : option Metadata) (w w' : World)
    (x : option Media) (e : option error) :
  Create r b m w = (x, e, r', w') ->
  match x with
  | None => e <> None /\ r' = r
  | Some m0 =>
      m0 = entity r (uuid_New w).1 b m
      /\ (e = None ->
          Get r (ID m0) = None /\ Get r' (ID m0) = Some m0
          /\ forall k, k <> ID m0 -> Get r' k = Get r k)
  end.
Proof.
  intros E. destruct (decide (path r = "")) as [Hp|Hp].
  { rewrite Create_memory in E by done. by inversion E. }
  rewrite Create_run in E by done.
  destruct (os.OpenFile _ _ _) as [[f|e0] w2]; [|by inversion E].
  destruct (os.Write f b w2) as [[f' [e0|]] w3]; [by inversion E|].
  destruct (Add r _ w3) as [[err r''] w4] eqn:EA.
  inversion E; subst. split; [done|]. intros ->.
  set (m0 := entity r (uuid_New w).1 b m) in *.
  pose proof (Add_cases r m0 w3) as C.
  destruct (Get r (ID m0)) eqn:G; [by rewrite C in EA|].
  split; [done|]. split.
  - rewrite (Get_Add _ _ _ _ _ _ (ID m0) EA), G. by rewrite decide_True.
  - intros k Hk. rewrite (Get_Add _ _ _ _ _ _ k EA), G. by rewrite decide_False.
Qed.

(** X7. [Create] never returns neither an entity nor an error.  Without an
    entity the repository is as before.  With an entity and no error the
    id was new and [Get] of it returns the entity, the other ids being as
    before. *)
Theorem Create_result {codec : Codec} {sniffer : Sniffer}
    (r r' : Repository) (b : bytes) (m : option Metadata) (w w' : World)
    (x : option Media) (e : option error) :
  Create r b m w = (x, e, r', w') ->
  match x with
  | None => e <> None /\ r' = r
  | Some m0 =>
      m0 = entity r (uuid_New w).1 b m
      /\ (e = None ->
          Get r (ID m0) = None /\ Get r' (ID m0) = Some m0
          /\ forall k, k <> ID m0 -> Get r' k = Get r k)
  end.
Proof.
  intros E. destruct (decide (path r = "")) as [Hp|Hp].
  { rewrite Create_memory in E by done. by inversion E. }
  rewrite Create_run in E by done.
  destruct (os.OpenFile _ _ _) as [[f|e0] w2]; [|by inversion E].
  destruct (os.Write f b w2) as [[f' [e0|]] w3]; [by inversion E|].
  destruct (Add r _ w3) as [[err r''] w4] eqn:EA.
  inversion E; subst. split; [done|]. intros ->.
  set (m0 := entity r (uuid_New w).1 b m) in *.
  pose proof (Add_cases r m0 w3) as C.
  destruct (Get r (ID m0)) eqn:G; [by rewrite C in EA|].
  split; [done|]. split.
  - rewrite (Get_Add _ _ _ _ _ _ (ID m0) EA), G. by rewrite decide_True.
  - intros k Hk. rewrite (Get_Add _ _ _ _ _ _ k EA), G. by rewrite decide_False.
Qed.

Lemma Create_result_witness :
  (exists m0 r' w',
     Create srv gif_payload None w0 = (Some m0, None, r', w')
     /\ Get r' (ID m0) = Some m0)
  /\ (exists e w', Create (NewMemory "mem") gif_payload None w0
                   = (None, e, NewMemory "mem", w') /\ e <> None).
Proof.
  split.
  - destruct (Create srv gif_payload None w0) as [[[x e] r'] w'] eqn:E.
    pose proof (Create_result _ _ _ _ _ _ _ _ E) as H.
    assert (x = Some (entity srv 1%N gif_payload None) /\ e = None) as [-> ->].
    { vm_compute in E. injection E as <- <- _ _. vm_compute. by split. }
    destruct H as (_ & H). destruct (H eq_refl) as (_ & G & _).
    eexists _, _, _. split; [reflexivity|exact G].
  - destruct (Create (NewMemory "mem") gif_payload None w0) as [[[x e] r'] w'] eqn:E.
    pose proof (Create_result _ _ _ _ _ _ _ _ E) as H.
    assert (x = None) as -> by (vm_compute in E; by injection E as <- _ _ _).
    destruct H as [He ->]. by exists e, w'.
Defined.

(** ** [Items] and [Get] *)

(** In a keyed repository the ids of [Items()] are pairwise distinct. *)
Lemma Items_ids_NoDup (r : Repository) (w : World) :
  keyed r -> NoDup (ID <$> (Items r w).1).
Proof.
  intros Hk. destruct (Items_entries r w) as (es & P & ->).
  pose proof (drawn_entries r es P) as [ND Hin].
  replace (ID <$> es.*2) with es.*1; [done|].
  rewrite <- list_fmap_compose. apply Forall_fmap_ext_1, Forall_forall.
  intros [k m] Hkm. simpl. symmetry. apply Hk. by apply Hin.
Qed.

(** X8. [Items] returns the entities [Get] can find, each once per id that
    holds it, and as many as the map has ids. *)
Theorem Items_are_what_Get_finds (r : Repository) (w : World) :
  (forall m, m ∈ (Items r w).1 <-> exists k, Get r k = Some m)
  /\ length (Items r w).1 = size (default ∅ (items r))
  /\ (keyed r -> NoDup (ID <$> (Items r w).1)).
Proof.
  split; [|split; [|apply Items_ids_NoDup]].
  - destruct (Items_entries r w) as (es & P & ->).
    intros m. rewrite list_elem_of_fmap. split.
    + intros ([k m'] & -> & Hin). exists k. apply entries_Get. by rewrite <- P.
    + intros (k & Hk). exists (k, m). split; [done|]. rewrite P. by apply entries_Get.
  - destruct (Items_entries r w) as (es & P & ->).
    rewrite length_fmap, P. unfold entries. apply length_map_to_list.
Qed.

(** X9. In every repository that comes from a constructor and any sequence
    of calls, each entity is stored under its own id, so that the ids of
    [Items()] are pairwise distinct. *)
Theorem ids_are_unique {codec : Codec} {sniffer : Sniffer}
    (name path lockPath : string) (wi wj : World) (e : option error)
    (r0 : Repository) (cs : list Call) (w w2 : World) :
  r0 = NewMemory name \/ NewFile name path lockPath wi = (Some r0, e, wj) ->
  let r := (calls cs r0 w).1 in
  keyed r /\ NoDup (ID <$> (Items r w2).1).
Proof.
  intros H0 r. assert (keyed r0) as K0.
  { destruct H0 as [->|E]; [apply keyed_NewMemory|by eapply keyed_NewFile]. }
  assert (keyed r) as K by (by apply keyed_calls).
  split; [done|]. by apply Items_ids_NoDup.
Qed.

Lemma ids_are_unique_witness :
  NoDup (ID <$> (Items three dice).1)
  /\ (forall r0 e wj, NewFile "r" "/srv" "/srv/index" indexed = (Some r0, e, wj) ->
                      NoDup (ID <$> (Items (calls [CallAdd C] r0 wj).1 dice).1)).
Proof.
  split.
  - apply (ids_are_unique "mem" "" "" w0 w0 None (NewMemory "mem")
             [CallAdd A; CallAdd B; CallAdd C] w0 dice).
    left. reflexivity.
  - intros r0 e wj E.
    apply (ids_are_unique "r" "/srv" "/srv/index" indexed wj e r0 [CallAdd C] wj dice).
    right. exact E.
Defined.

Lemma Items_are_what_Get_finds_witness :
  (forall m, m ∈ (Items three dice).1 <-> exists k, Get three k = Some m)
  /\ length (Items three dice).1 = 3
  /\ NoDup (ID <$> (Items three dice).1).
Proof.
  destruct (Items_are_what_Get_finds three dice) as (H1 & H2 & H3).
  split; [exact H1|]. split.
  - rewrite H2. vm_compute. reflexivity.
  - apply H3. apply keyed_calls, keyed_NewMemory.
Defined.

(** ** The reads *)

Section Reads.
Context {A : Type}.

Lemma shuffle_from_world (i : nat) (v : list A) (w : World) :
  (rand.shuffle_from i swap v w).2
  = set_random (random (rand.shuffle_from i swap v w).2) w.
Proof.
  revert v w. induction i as [|i IH]; intros v w.
  { simpl. by destruct w. }
  simpl. rewrite bind_run.
  assert ((rand.Intn (S (S i)) w).2 = set_random (random (rand.Intn (S (S i)) w).2) w)
    as E1.
  { unfold rand.Intn. destruct (random w) eqn:Er; [|done].
    destruct w; simpl in *; by subst. }
  destruct (swap (S i) _ v) as [v'|].
  - rewrite IH. rewrite E1 at 2. done.
  - simpl. exact E1.
Qed.

End Reads.

Lemma range_world {V : Type} (m : gmap UUID V) (w : World) :
  (runtime.range m w).2 = set_orders (orders (runtime.range m w).2) w.
Proof.
  unfold runtime.range. destruct (orders w) eqn:Eo; [|done].
  destruct w; simpl in *; by subst.
Qed.

(** X10. The reads make no system call and leave the disk, the trace and the
    fault list alone.  [Items] changes nothing of the world but the order
    of the next map iterations, [Random] nothing but this and the state of
    the random source; [Get] does not touch the world at all. *)
Theorem reads_leave_the_world (r : Repository) (n : Z) (w : World) :
  (Items r w).2 = set_orders (orders (Items r w).2) w
  /\ (Random r n w).2
     = set_random (random (Random r n w).2) (set_orders (orders (Random r n w).2) w).
Proof.
  assert ((Items r w).2 = set_orders (orders (Items r w).2) w) as EI.
  { unfold Items, maps_Values. destruct (items r) as [m|].
    - rewrite bind_run. simpl. apply range_world.
    - simpl. by destruct w. }
  split; [exact EI|].
  unfold Random. destruct (n <=? 0)%Z; [simpl; by destruct w|].
  rewrite bind_run. unfold rand.Shuffle. rewrite bind_run.
  set (v := (Items r w).1). set (w1 := (Items r w).2) in *.
  pose proof (shuffle_from_world (length v - 1) v w1) as ES.
  destruct (rand.shuffle_from (length v - 1) swap v w1) as [[v'|] w2]; simpl in *;
    rewrite ES, EI; done.
Qed.

(** ** What [NewFile] returns and what it leaves alone *)

Section Construction.
Context {codec : Codec}.

Lemma Warn_disk (msg repo i : string) (w : World) :
  same_disk w (logger_Warn msg repo i w).2.
Proof. done. Qed.

Lemma load_line_disk (name root : string) (line : bytes) (acc : gmap UUID Media)
    (w : World) :
  same_disk w (load_line name root line acc w).2.
Proof.
  unfold load_line. destruct line as [|b line]; [done|].
  destruct (json_Unmarshal _) as [m|e]; [|done].
  destruct (acc !! ID m); [by rewrite bind_run|].
  rewrite bind_run. destruct (Stat_disk
    (if filepath.IsAbs (Path m) then Path m else filepath.Join [root; Path m]) w)
    as (S & _).
  destruct (os.Stat _ w) as [st w1]. simpl in *.
  destruct (match st with Some e => is_not_exist e | None => false end); [|done].
  by rewrite bind_run.
Qed.

Lemma load_lines_disk (name root : string) (lines : list bytes)
    (acc : gmap UUID Media) (w : World) :
  same_disk w (load_lines name root lines acc w).2.
Proof.
  revert acc w. induction lines as [|line lines IH]; intros acc w; [done|].
  simpl. rewrite bind_run. pose proof (load_line_disk name root line acc w) as S1.
  destruct (load_line name root line acc w) as [[acc1|e] w1]; simpl in *; [|done].
  eapply same_disk_trans; [exact S1|apply IH].
Qed.

Lemma Scan_disk (f : os.File) (w : World) : same_disk w (bufio.Scan f w).2.
Proof.
  unfold bufio.Scan, os.ReadAll. rewrite !bind_run.
  pose proof (syscall_disk (SysRead (os.fpath f)) w) as S.
  destruct (os.syscall _ w) as [[flt|] w1]; simpl in *;
    repeat match goal with
      | |- context [bool_decide ?P] => destruct (bool_decide P); simpl
      | |- context [bufio.ScanLines ?a ?b] => destruct (bufio.ScanLines a b)
      end; done.
Qed.

Lemma Close_disk (f : os.File) (w : World) : same_disk w (os.Close f w).2.
Proof.
  unfold os.Close. rewrite bind_run. simpl. apply syscall_disk.
Qed.

Lemma MkdirAll_dirs (p : string) (w : World) : dirs w ⊆ dirs (os.MkdirAll p w).2.
Proof.
  unfold os.MkdirAll. rewrite bind_run.
  destruct (syscall_disk (SysMkdirAll p) w) as (Ef & Ed & Ec).
  destruct (os.syscall _ w) as [[flt|] w1]; simpl in *; [by rewrite Ed|].
  destruct (String.eqb p ""); simpl; [by rewrite Ed|].
  destruct (files w1 !! _); simpl; rewrite Ed; [done|apply union_subseteq_r].
Qed.

Lemma NewFile_shape (name path lockPath : string) (w w' : World)
    (res : option Repository * option error) :
  NewFile name path lockPath w = (res, w') ->
  files w' = files w /\ cwd w' = cwd w /\ dirs w ⊆ dirs w'
  /\ ((exists e, res = (None, Some e))
      \/ (exists its, res = (Some (mkRepository name (root_of w path) lockPath its), None))).
Proof.
  unfold NewFile. rewrite bind_run.
  set (pa := (if filepath.IsAbs path then ret (inl path) else filepath_Abs path) w).
  assert (same_disk w pa.2 /\ (forall root, pa.1 = inl root -> root = root_of w path))
    as (S0 & Hroot).
  { unfold pa, filepath_Abs, root_of. destruct (filepath.IsAbs path).
    { split; [done|]. by intros root [= <-]. }
    rewrite bind_run. unfold os.Getwd. rewrite bind_run.
    pose proof (syscall_disk SysGetwd w) as S.
    destruct (os.syscall SysGetwd w) as [[flt|] w0']; simpl in *; [done|].
    split; [done|]. intros root [= <-]. destruct S as (_ & _ & ->). done. }
  destruct pa as [[root|e0] w0']; simpl in *.
  2:{ unfold ret; cbv beta; intros E; injection E as <- <-. destruct S0 as (? & ? & ?). repeat split; eauto. by rewrite H0. }
  pose proof (Hroot root eq_refl) as ->. clear Hroot.
  rewrite bind_run. destruct (MkdirAll_files (root_of w path) w0') as (Ef1 & Ec1).
  pose proof (MkdirAll_dirs (root_of w path) w0') as Ed1.
  destruct S0 as (Ef0 & Ed0 & Ec0). rewrite Ed0 in Ed1.
  destruct (os.MkdirAll (root_of w path) w0') as [[e1|] w1]; simpl in *.
  { unfold ret; cbv beta; intros E; injection E as <- <-. rewrite Ef1, Ec1. eauto 10. }
  rewrite bind_run. destruct (Stat_disk lockPath w1) as ((Ef2 & Ed2 & Ec2) & _).
  destruct (os.Stat lockPath w1) as [[e2|] w2]; simpl in *.
  { unfold ret; cbv beta; intros E; injection E as <- <-. rewrite Ef2, Ec2, Ed2, Ef1, Ec1. eauto 10. }
  rewrite bind_run. destruct (Open_disk lockPath w2) as ((Ef3 & Ed3 & Ec3) & _).
  destruct (os.Open lockPath w2) as [[f|e3] w3]; simpl in *.
  2:{ unfold ret; cbv beta; intros E; injection E as <- <-. rewrite Ef3, Ec3, Ed3, Ef2, Ec2, Ed2, Ef1, Ec1. eauto 10. }
  rewrite bind_run. destruct (Scan_disk f w3) as (Ef4 & Ed4 & Ec4).
  destruct (bufio.Scan f w3) as [[lines serr] w4]; simpl in *.
  rewrite bind_run.
  destruct (load_lines_disk name (root_of w path) lines ∅ w4) as (Ef5 & Ed5 & Ec5).
  destruct (load_lines _ _ _ _ w4) as [r5 w5]; simpl in *.
  rewrite bind_run. destruct (Close_disk f w5) as (Ef6 & Ed6 & Ec6).
  destruct (os.Close f w5) as [c6 w6]; simpl in *.
  assert (files w6 = files w /\ cwd w6 = cwd w /\ dirs w ⊆ dirs w6) as D.
  { rewrite Ef6, Ec6, Ed6, Ef5, Ec5, Ed5, Ef4, Ec4, Ed4, Ef3, Ec3, Ed3,
      Ef2, Ec2, Ed2, Ef1, Ec1. done. }
  destruct r5 as [its|e5]; [destruct serr as [e5|]|]; unfold ret; cbv beta; intros E; injection E as <- <-;
    destruct D as (? & ? & ?); eauto 10.
Qed.

End Construction.

(** X11. [NewFile] returns a repository and no error, or an error and no
    repository.  The repository has the given id and index path, and its
    root is the given path, made absolute with the working directory when
    it is relative. *)
Theorem NewFile_returns_repository_or_error {codec : Codec}
    (name path lockPath : string) (w w' : World)
    (x : option Repository) (e : option error) :
  NewFile name path lockPath w = (x, e, w') ->
  match x with
  | None => e <> None
  | Some r =>
      e = None
      /\ Repository_ID r = name
      /\ Repository_LockPath r = lockPath
      /\ Repository_Path r = (if filepath.IsAbs path then path
                              else filepath.Join [cwd w; path])
      /\ (filepath.IsAbs (cwd w) = true -> filepath.IsAbs (Repository_Path r) = true)
  end.
Proof.
  intros E. apply NewFile_shape in E as (_ & _ & _ & [(e0 & E)|(its & E)]);
    injection E as -> ->; [done|].
  repeat split. unfold Repository_Path, root_of. simpl. intros Hc.
  destruct (filepath.IsAbs path) eqn:Ep; [done|]. by apply IsAbs_Join.
Qed.

Lemma NewFile_returns_repository_or_error_witness :
  (exists r w', NewFile "r" "store" "/srv/index" indexed = (Some r, None, w')
                /\ Repository_Path r = "/home/store"
                /\ filepath.IsAbs (Repository_Path r) = true)
  /\ (exists e w', NewFile "r" "/srv" "/srv/index" damaged = (None, e, w') /\ e <> None).
Proof.
  split.
  - destruct (NewFile "r" "store" "/srv/index" indexed) as [[x e] w'] eqn:E.
    pose proof (NewFile_returns_repository_or_error _ _ _ _ _ _ _ E) as H.
    assert (exists r, x = Some r) as [r ->].
    { vm_compute in E. injection E as <- _ _. by eexists. }
    destruct H as (-> & _ & _ & Hp & Ha).
    exists r, w'. split; [reflexivity|]. split.
    + rewrite Hp. vm_compute. reflexivity.
    + apply Ha. reflexivity.
  - destruct (NewFile "r" "/srv" "/srv/index" damaged) as [[x e] w'] eqn:E.
    pose proof (NewFile_returns_repository_or_error _ _ _ _ _ _ _ E) as H.
    assert (x = None) as -> by (vm_compute in E; by injection E as <- _ _).
    by exists e, w'.
Defined.

(** X12. [NewFile] writes no file: whatever it returns, every file is as it
    was, no directory has gone and the working directory is the same. *)
Theorem NewFile_writes_no_file {codec : Codec} (name path lockPath : string) (w : World) :
  files (NewFile name path lockPath w).2 = files w
  /\ dirs w ⊆ dirs (NewFile name path lockPath w).2
  /\ cwd (NewFile name path lockPath w).2 = cwd w.
Proof.
  destruct (NewFile name path lockPath w) as [res w'] eqn:E.
  apply NewFile_shape in E as (Ef & Ec & Ed & _). done.
Qed.

(** ** Reading the index in a world without failures *)

Section QuietReload.
Context {codec : Codec}.

(** [NewFile] up to its loop, and what it makes of the loop's result. *)
Lemma NewFile_quiet (name path lockPath : string) (w : World)
    (content : bytes) (lines : list bytes) (serr : option error) :
  faults w = [] ->
  root_of w path <> "" ->
  files w !! os.resolve w (root_of w path) = None ->
  lockPath <> "" ->
  files w !! os.resolve w lockPath = Some content ->
  os.resolve w lockPath ∉ ({[os.resolve w (root_of w path)]} ∪ dirs w : gset string) ->
  bufio.ScanLines [] content = (lines, serr) ->
  exists w4,
    faults w4 = []
    /\ same_disk (set_dirs ({[os.resolve w (root_of w path)]} ∪ dirs w) w) w4
    /\ warnings w4 = warnings w
    /\ NewFile name path lockPath w
       = (match (load_lines name (root_of w path) lines ∅ w4).1, serr with
          | inr e, _ => (None, Some e)
          | inl _, Some e => (None, Some (Wrap e "failed to read index file"))
          | inl its, None =>
              (Some (mkRepository name (root_of w path) lockPath (Some its)), None)
          end,
          logged (SysClose (os.resolve w lockPath))
                 (load_lines name (root_of w path) lines ∅ w4).2).
Proof.
  intros Hq Hne Hroot Hl Hfile Hdir Hscan.
  set (root := root_of w path) in *.
  set (w1 := set_dirs ({[os.resolve w root]} ∪ dirs w) w).
  assert (exists w2, faults w2 = [] /\ same_disk w1 w2 /\ warnings w2 = warnings w /\
            NewFile name path lockPath w
            = (st <- os.Stat lockPath;;
               match st with
               | Some _ => ret (Some (mkRepository name root lockPath None), None)
               | None =>
                   fo <- os.Open lockPath;;
                   match fo with
                   | inr e => ret (None, Some (Wrap e "failed to open index file"))
                   | inl f =>
                       sc <- bufio.Scan f;;
                       let '(lines, serr) := sc in
                       r <- load_lines name root lines ∅;;
                       _ <- os.Close f;;
                       match r, serr with
                       | inr e, _ => ret (None, Some e)
                       | inl _, Some e =>
                           ret (None, Some (Wrap e "failed to read index file"))
                       | inl items, None =>
                           ret (Some (mkRepository name root lockPath (Some items)), None)
                       end
                   end
               end)%io w2) as (w2 & Hq2 & S2 & Hw2 & Run).
  { subst w1 root. unfold NewFile, filepath_Abs, root_of in *.
    destruct (filepath.IsAbs path) eqn:Ep; cbv iota in *.
    - rewrite bind_run. simpl. rewrite bind_run.
      rewrite MkdirAll_quiet by done.
      simpl. eexists. split; [|split; [|split; [|reflexivity]]]; done.
    - rewrite !bind_run. rewrite Getwd_quiet by done. simpl. rewrite bind_run.
      rewrite MkdirAll_quiet by done.
      simpl. eexists. split; [|split; [|split; [|reflexivity]]]; done. }
  rewrite Run. clear Run.
  pose proof (same_disk_exists _ _ lockPath S2) as Ex2.
  assert (os.exists_ w2 lockPath = true) as Hex.
  { rewrite Ex2. unfold os.exists_. apply String.eqb_neq in Hl. rewrite Hl. simpl.
    change (os.resolve w1 lockPath) with (os.resolve w lockPath).
    change (files w1) with (files w). rewrite Hfile.
    rewrite bool_decide_eq_true_2 by eauto. done. }
  rewrite bind_run, Stat_quiet by done. rewrite Hex. simpl.
  rewrite bind_run, Open_quiet by done. simpl.
  rewrite bind_run. unfold bufio.Scan. rewrite bind_run.
  change (os.resolve (logged (SysStat lockPath) w2) lockPath)
    with (os.resolve w2 lockPath).
  rewrite (same_disk_resolve _ _ lockPath S2).
  change (os.resolve w1 lockPath) with (os.resolve w lockPath).
  set (f := os.mkFile (os.resolve w lockPath) 0 false).
  set (w3 := logged (SysOpen lockPath) (logged (SysStat lockPath) w2)).
  assert (same_disk w1 w3) as S3 by exact S2.
  rewrite ReadAll_quiet; [|done|].
  2:{ destruct S3 as (_ & Ed & _). by rewrite Ed. }
  simpl.
  assert (os.contents w3 f = content) as ->.
  { unfold os.contents. destruct S3 as (Ef & _). rewrite Ef. simpl.
    change (files w1) with (files w). by rewrite Hfile. }
  rewrite Hscan. simpl.
  set (w4 := logged _ w3). exists w4.
  split; [done|]. split; [exact S3|]. split; [exact Hw2|].
  destruct (load_lines_quiet name root lines ∅ w4) as (w5 & EL & Hq5 & S5); [done|].
  rewrite bind_run, EL. simpl. rewrite bind_run, Close_quiet by done. simpl.
  by destruct (load_records _ _ _ _) as [its|e]; [destruct serr|].
Qed.



End QuietReload.



(** ** The index read back *)

Lemma eqb_NL_false (x : byte) : x <> NL -> Byte.eqb x NL = false.
Proof.
  intros Hx. destruct (Byte.eqb x NL) eqn:E; [|done].
  by apply Byte.byte_dec_bl in E.
Qed.

(** The scanner on a line that ends with a line feed. *)
Lemma ScanLines_line (b cur rest : bytes) :
  NL ∉ b ->
  (N.of_nat (length cur + length b) < bufio.MaxScanTokenSize)%N ->
  bufio.ScanLines cur (b ++ NL :: rest)
  = (bufio.dropCR (rev cur ++ b) :: (bufio.ScanLines [] rest).1,
     (bufio.ScanLines [] rest).2).
Proof.
  revert cur. induction b as [|x b IH]; intros cur Hnl Hlen.
  - simpl. rewrite app_nil_r. by destruct (bufio.ScanLines [] rest).
  - apply not_elem_of_cons in Hnl as [Hx Hnl].
    simpl. rewrite eqb_NL_false by done.
    assert ((bufio.MaxScanTokenSize <=? N.of_nat (S (length cur)))%N = false) as ->.
    { apply N.leb_gt. simpl in Hlen. lia. }
    rewrite IH; [|done|simpl in *; lia].
    simpl. by rewrite <- app_assoc.
Qed.

Lemma ScanLines_lines (bs : list bytes) :
  Forall line_ok bs ->
  bufio.ScanLines [] (concat ((fun b => b ++ [NL]) <$> bs)) = (bs, None).
Proof.
  induction 1 as [|b bs (Hne & Hnl & Hcr & Hlen) _ IH]; [done|].
  rewrite fmap_cons. simpl. rewrite <- app_assoc. simpl.
  rewrite ScanLines_line by done. rewrite IH. simpl. by rewrite Hcr.
Qed.

Lemma head_filter_unique {A : Type} (P : A -> Prop) `{forall x, Decision (P x)}
    (l : list A) (x : A) :
  x ∈ l -> P x -> (forall y, y ∈ l -> P y -> y = x) -> head (filter P l) = Some x.
Proof.
  intros Hin Hp Hu.
  assert (x ∈ filter P l) as Hx by (by apply list_elem_of_filter).
  destruct (filter P l) as [|y l'] eqn:E; [by apply elem_of_nil in Hx|].
  simpl. f_equal. assert (y ∈ filter P l) as Hy by (rewrite E; by left).
  apply list_elem_of_filter in Hy as [Hpy Hy]. by apply Hu.
Qed.

Section RoundTrip.
Context {codec : Codec}.

(** The lines of restorable entities, one by one. *)
Lemma index_lines_restorable (r : Repository) (w : World) (ms : list Media)
    (content : bytes) :
  Forall (restorable r w) ms ->
  index_lines r ms = Some content ->
  exists bs,
    content = concat ((fun b => b ++ [NL]) <$> bs)
    /\ Forall line_ok bs
    /\ json_Unmarshal <$> bs = inl <$> (index_record r <$> ms).
Proof.
  intros Hall. revert content.
  induction Hall as [|m ms ((b & Hm & Hok & Hu) & _ & _) _ IH]; intros content.
  { intros [= <-]. by exists []. }
  simpl. unfold index_line. fold (index_record r m). rewrite Hm.
  destruct (index_lines r ms) as [ls|]; [|done]. intros [= <-].
  destruct (IH ls eq_refl) as (bs & -> & Hbs & Hdec).
  exists (b :: bs). split; [done|]. split; [by constructor|].
  rewrite !fmap_cons. by rewrite Hu, Hdec.
Qed.

Lemma decoded_ok (bs : list bytes) :
  Forall line_ok bs -> decoded bs = json_Unmarshal <$> bs.
Proof.
  intros Hbs. unfold decoded. f_equal.
  induction Hbs as [|b bs (Hne & _) _ IH]; [done|].
  rewrite filter_cons_True by done. by rewrite IH.
Qed.

(** Restorable entities all survive the reload, as they are in memory. *)
Lemma survivors_restorable (r : Repository) (w w1 : World) (ms : list Media) :
  (forall p, os.exists_ w p = true -> os.exists_ w1 p = true) ->
  Forall (restorable r w) ms ->
  survivors (os.exists_ w1) (path r) (index_record r <$> ms) = ms.
Proof.
  intros Hmono Hall. unfold survivors.
  induction Hall as [|m ms (_ & Hres & Hex) _ IH]; [done|].
  rewrite !fmap_cons, Hres. rewrite filter_cons_True by (by apply Hmono).
  by rewrite IH.
Qed.

(** Among the entities of a keyed repository, the first with the id [k]
    is what [Get] finds. *)
Lemma first_with_Get (r : Repository) (ms : list Media) (k : UUID) :
  keyed r -> ms ≡ₚ (entries r).*2 -> first_with k ms = Get r k.
Proof.
  intros Hk P.
  assert (forall m, m ∈ ms <-> exists j, Get r j = Some m) as Hin.
  { intros m. rewrite P, list_elem_of_fmap. split.
    - intros ([j m'] & -> & Hj). exists j. by apply entries_Get.
    - intros (j & Hj). exists (j, m). split; [done|]. by apply entries_Get. }
  unfold first_with. destruct (Get r k) as [m|] eqn:G.
  - apply head_filter_unique.
    + apply Hin. eauto.
    + by apply Hk.
    + intros y [j Hj]%Hin Hy. apply Hk in Hj as Hj'. congruence.
  - destruct (filter _ ms) as [|y l] eqn:E; [done|].
    assert (y ∈ filter (fun m => ID m = k) ms) as Hy by (rewrite E; by left).
    apply list_elem_of_filter in Hy as [Hid [j Hj]%Hin].
    apply Hk in Hj as Hj'. congruence.
Qed.

End RoundTrip.

(** X14. The reload property.  In a world without failures, let the index
    file hold the lines [save] writes for the entities of the map, in any
    order, and let every entity be restorable.  Then [NewFile] on the same
    root and index succeeds, and [Get] finds in the new repository exactly
    what it finds in the old one. *)
Theorem reload_restores_the_items {codec : Codec}
    (r : Repository) (w : World) (ms : list Media) (content : bytes) :
  faults w = [] ->
  filepath.IsAbs (path r) = true ->
  files w !! os.resolve w (path r) = None ->
  lockPath r <> "" ->
  os.resolve w (lockPath r) ∉ ({[os.resolve w (path r)]} ∪ dirs w : gset string) ->
  keyed r ->
  ms ≡ₚ (entries r).*2 ->
  index_lines r ms = Some content ->
  files w !! os.resolve w (lockPath r) = Some content ->
  Forall (restorable r w) ms ->
  exists r' w',
    NewFile (id r) (path r) (lockPath r) w = (Some r', None, w')
    /\ (forall k, Get r' k = Get r k)
    /\ Repository_Path r' = Repository_Path r
    /\ Repository_LockPath r' = Repository_LockPath r.
Proof.
  intros Hq Habs Hroot Hl Hdir Hk P Hlines Hfile Hall.
  assert (root_of w (path r) = path r) as Er by (unfold root_of; by rewrite Habs).
  destruct (index_lines_restorable r w ms content Hall Hlines) as (bs & -> & Hbs & Hdec).
  destruct (NewFile_quiet (id r) (path r) (lockPath r) w
              (concat ((fun b => b ++ [NL]) <$> bs)) bs None)
    as (w4 & Hq4 & S4 & _ & Run); rewrite ?Er; try done.
  { by destruct (path r). }
  { by apply ScanLines_lines. }
  rewrite Er in Run, S4. rewrite Run. clear Run.
  set (w1 := set_dirs ({[os.resolve w (path r)]} ∪ dirs w) w) in *.
  destruct (load_lines_quiet (id r) (path r) bs ∅ w4 Hq4) as (w5 & EL & _ & _).
  rewrite EL. simpl.
  assert (os.exists_ w4 = os.exists_ w1) as ->.
  { destruct S4 as (Ef & Ed & Ec). unfold os.exists_, os.resolve.
    by rewrite Ef, Ed, Ec. }
  rewrite (decoded_ok bs Hbs), Hdec.
  destruct (load_records_clean (os.exists_ w1) (path r) (index_record r <$> ms) ∅)
    as (its & E & L).
  rewrite E. eexists _, _. split; [done|]. split; [|done].
  intros k. unfold Get at 1. simpl. rewrite L, lookup_empty.
  rewrite (survivors_restorable r w w1); [by apply first_with_Get| |done].
  intros p. unfold os.exists_. subst w1. simpl.
  change (os.resolve (set_dirs _ w) p) with (os.resolve w p).
  intros [Hp [Hf|Hd]%orb_true_iff]%andb_true_iff; apply andb_true_iff;
    (split; [done|apply orb_true_iff]); [by left|right].
  apply bool_decide_eq_true. apply bool_decide_eq_true in Hd. set_solver.
Qed.

Lemma reload_restores_the_items_witness :
  let r2 := (calls [CallAdd A; CallAdd B] srv stocked).1 in
  let w2 := (calls [CallAdd A; CallAdd B] srv stocked).2 in
  exists r' w',
    NewFile "r" "/srv" "/srv/index" w2 = (Some r', None, w')
    /\ Get r' (ID A) = Some A /\ Get r' (ID B) = Some B /\ Get r' (ID C) = None.
Proof.
  intros r2 w2.
  assert (faults w2 = []) as H1 by (vm_compute; reflexivity).
  assert (filepath.IsAbs (path r2) = true) as H2 by (vm_compute; reflexivity).
  assert (files w2 !! os.resolve w2 (path r2) = None) as H3 by (vm_compute; reflexivity).
  assert (lockPath r2 <> "") as H4 by (vm_compute; discriminate).
  assert (os.resolve w2 (lockPath r2)
          ∉ ({[os.resolve w2 (path r2)]} ∪ dirs w2 : gset string)) as H5
    by (apply (bool_decide_unpack _); vm_compute; exact I).
  assert (keyed r2) as H6 by (apply keyed_calls, keyed_nil; reflexivity).
  assert ([A; B] ≡ₚ (entries r2).*2) as H7.
  { replace ((entries r2).*2) with [A; B] by (vm_compute; reflexivity). reflexivity. }
  assert (index_lines r2 [A; B] = Some (default [] (files w2 !! "/srv/index"))) as H8
    by (vm_compute; reflexivity).
  assert (files w2 !! os.resolve w2 (lockPath r2)
          = Some (default [] (files w2 !! "/srv/index"))) as H9
    by (vm_compute; reflexivity).
  assert (Forall (restorable r2 w2) [A; B]) as H10.
  { repeat constructor; try (vm_compute; reflexivity);
      (eexists; split; [vm_compute; reflexivity|]; split; [|vm_compute; reflexivity]);
      (split; [vm_compute; discriminate|]; split; [|split; vm_compute; reflexivity]);
      apply (bool_decide_unpack _); vm_compute; exact I. }
  destruct (reload_restores_the_items r2 w2 [A; B] _ H1 H2 H3 H4 H5 H6 H7 H8 H9 H10)
    as (r' & w' & E & G & _).
  exists r', w'. split.
  - replace (id r2) with "r" in E by (vm_compute; reflexivity).
    replace (path r2) with "/srv" in E by (vm_compute; reflexivity).
    replace (lockPath r2) with "/srv/index" in E by (vm_compute; reflexivity).
    exact E.
  - rewrite !G. vm_compute. repeat split; reflexivity.
Defined.

Lemma Remove_index_contents_witness :
  let r2 := (calls [CallAdd A; CallAdd B] srv stocked).1 in
  let w2 := (calls [CallAdd A; CallAdd B] srv stocked).2 in
  exists la lb w',
    index_line r2 A = inl la /\ index_line r2 B = inl lb
    /\ files w2 !! "/srv/index" = Some (la ++ lb)
    /\ Remove r2 (ID B) w2 = (None, set_items (delete (ID B) <$> items r2) r2, w')
    /\ files w' !! "/srv/index" = Some (la ++ drop (length la) (la ++ lb)).
Proof.
  intros r2 w2.
  set (la := bytes_of_string "00000000-0000-0000-0000-00000000000a 1 a.png" ++ [NL]).
  set (lb := bytes_of_string "00000000-0000-0000-0000-00000000000b 2 b.gif" ++ [NL]).
  assert (lockPath r2 <> "") as H1 by (vm_compute; discriminate).
  assert (faults w2 = []) as H2 by (vm_compute; reflexivity).
  assert (os.resolve w2 (lockPath r2) ∉ dirs w2) as H3
    by (apply (bool_decide_unpack _); vm_compute; exact I).
  assert (files w2 !! os.resolve w2 (lockPath r2) = Some (la ++ lb)) as H4
    by (vm_compute; reflexivity).
  assert (index_lines (set_items (delete (ID B) <$> items r2) r2)
            (Items (set_items (delete (ID B) <$> items r2) r2) w2).1 = Some la) as H5
    by (vm_compute; reflexivity).
  destruct (Remove_index_contents r2 (ID B) w2 (la ++ lb) la H1 H2 H3 H4 H5)
    as (w' & E & Ef).
  exists la, lb, w'.
  split; [vm_compute; reflexivity|]. split; [vm_compute; reflexivity|].
  split; [vm_compute; reflexivity|]. split; [exact E|].
  rewrite Ef.
  replace (os.resolve w2 (lockPath r2)) with "/srv/index" by (vm_compute; reflexivity).
  apply lookup_insert_eq.
Defined.

(** * The server *)

Section Serving.
Context {codec : Codec} {sniffer : Sniffer} {wire : Wire}.

(** [PostRepo] up to the call of [Create]: the three ways it returns
    before, with the server and the world as they were, and what it does
    with the results of [Create]. *)
Lemma PostRepo_paths (repos : gmap string Repository) (request : PostRepoRequest)
    (w : World) :
  (repos !! rq_Repo request = None
   /\ PostRepo repos request w
      = (Returns (Some (PostRepo400 (mkWireError WireNotFound "unknown repository")))
                 None, repos, w))
  \/ (exists e, PostRepo repos request w = (Returns None (Some e), repos, w))
  \/ (is_Some (repos !! rq_Repo request)
      /\ (exists e, base64_DecodeString (rq_Data request) = inr e)
      /\ PostRepo repos request w
         = (Returns (Some (PostRepo400
                             (mkWireError WireBadRequest "failed to decode data")))
                    None, repos, w))
  \/ (exists r d m,
        repos !! rq_Repo request = Some r
        /\ base64_DecodeString (rq_Data request) = inl d
        /\ m = match rq_Meta request with
               | None => None
               | Some mm => match ValueByDiscriminator mm with
                            | inl v => unwrapMetadata v
                            | inr _ => None
                            end
               end
        /\ PostRepo repos request w
           = let '(m0, err, r', w') := Create r d m w in
             let repos' := <[rq_Repo request := r']> repos in
             match err, m0 with
             | Some e, _ => (Returns None (Some e), repos', w')
             | None, None => (Panics, repos', w')
             | None, Some m0 =>
                 let '(m1, err) :=
                   match wrapMetadata (Meta m0) with
                   | Some (WireGeneric s a l) => FromGenericMetadata MediaMeta_zero s a l
                   | Some (WireAnime n) => FromAnimeMetadata MediaMeta_zero n
                   | _ => (MediaMeta_zero, None)
                   end in
                 match err with
                 | Some e => (Returns None (Some e), repos', w')
                 | None =>
                     (Returns (Some (PostRepo200
                                       (mkWireMedia (wrapFormat (Format_ m0)) (ID m0) m1)))
                              None, repos', w')
                 end
             end).
Proof.
  unfold PostRepo.
  destruct (repos !! rq_Repo request) as [r|] eqn:Er; [|by left].
  right.
  assert (forall m,
    (is_Some (Some r)
     /\ (exists e, base64_DecodeString (rq_Data request) = inr e)
     /\ match base64_DecodeString (rq_Data request) with
        | inr _ =>
            ret (Returns (Some (PostRepo400
                                  (mkWireError WireBadRequest "failed to decode data")))
                         None, repos)
        | inl d =>
            cr <- Create r d m;;
            let '(m0, err, r') := cr in
            let repos' := <[rq_Repo request := r']> repos in
            match err, m0 with
            | Some e, _ => ret (Returns None (Some e), repos')
            | None, None => ret (Panics, repos')
            | None, Some m0 =>
                let '(m1, err) :=
                  match wrapMetadata (Meta m0) with
                  | Some (WireGeneric s a l) => FromGenericMetadata MediaMeta_zero s a l
                  | Some (WireAnime n) => FromAnimeMetadata MediaMeta_zero n
                  | _ => (MediaMeta_zero, None)
                  end in
                match err with
                | Some e => ret (Returns None (Some e), repos')
                | None =>
                    ret (Returns (Some (PostRepo200
                                          (mkWireMedia (wrapFormat (Format_ m0))
                                                       (ID m0) m1)))
                                 None, repos')
                end
            end
        end w
        = (Returns (Some (PostRepo400
                            (mkWireError WireBadRequest "failed to decode data")))
                   None, repos, w))
    \/ (exists d,
          base64_DecodeString (rq_Data request) = inl d
          /\ match base64_DecodeString (rq_Data request) with
             | inr _ =>
                 ret (Returns (Some (PostRepo400
                                       (mkWireError WireBadRequest "failed to decode data")))
                              None, repos)
             | inl d =>
                 cr <- Create r d m;;
                 let '(m0, err, r') := cr in
                 let repos' := <[rq_Repo request := r']> repos in
                 match err, m0 with
                 | Some e, _ => ret (Returns None (Some e), repos')
                 | None, None => ret (Panics, repos')
                 | None, Some m0 =>
                     let '(m1, err) :=
                       match wrapMetadata (Meta m0) with
                       | Some (WireGeneric s a l) =>
                           FromGenericMetadata MediaMeta_zero s a l
                       | Some (WireAnime n) => FromAnimeMetadata MediaMeta_zero n
                       | _ => (MediaMeta_zero, None)
                       end in
                     match err with
                     | Some e => ret (Returns None (Some e), repos')
                     | None =>
                         ret (Returns (Some (PostRepo200
                                               (mkWireMedia (wrapFormat (Format_ m0))
                                                            (ID m0) m1)))
                                      None, repos')
                     end
                 end
             end w
             = let '(m0, err, r', w') := Create r d m w in
               let repos' := <[rq_Repo request := r']> repos in
               match err, m0 with
               | Some e, _ => (Returns None (Some e), repos', w')
               | None, None => (Panics, repos', w')
               | None, Some m0 =>
                   let '(m1, err) :=
                     match wrapMetadata (Meta m0) with
                     | Some (WireGeneric s a l) =>
                         FromGenericMetadata MediaMeta_zero s a l
                     | Some (WireAnime n) => FromAnimeMetadata MediaMeta_zero n
                     | _ => (MediaMeta_zero, None)
                     end in
                   match err with
                   | Some e => (Returns None (Some e), repos', w')
                   | None =>
                       (Returns (Some (PostRepo200
                                         (mkWireMedia (wrapFormat (Format_ m0))
                                                      (ID m0) m1)))
                                None, repos', w')
                   end
               end)) as Tail.
  { intros m. destruct (base64_DecodeString (rq_Data request)) as [d|e].
    - right. exists d. split; [done|]. rewrite bind_run.
      destruct (Create r d m w) as [[[m0 [e|]] r'] w']; cbn [fst snd]; [done|].
      destruct m0 as [m0|]; [|done].
      by destruct (match wrapMetadata (Meta m0) with
                   | Some (WireGeneric s a l) => FromGenericMetadata MediaMeta_zero s a l
                   | Some (WireAnime n) => FromAnimeMetadata MediaMeta_zero n
                   | _ => (MediaMeta_zero, None)
                   end) as [m1 [e|]].
    - left. split; [by eexists|]. split; [by eexists|done]. }
  destruct (rq_Meta request) as [mm|].
  - destruct (ValueByDiscriminator mm) as [v|e]; [|left; by eexists].
    right. destruct (Tail (unwrapMetadata v)) as [T|(d & Ed & T)]; [by left|].
    right. by exists r, d, (unwrapMetadata v).
  - right. destruct (Tail None) as [T|(d & Ed & T)]; [by left|].
    right. by exists r, d, None.
Qed.

(** X16. [PostRepo] returns a response or an error, and exactly one of the
    two.  It does not end in the panic of a nil entity: [Create] returns
    an entity whenever it returns no error. *)
Theorem PostRepo_answers_or_fails (repos : gmap string Repository)
    (request : PostRepoRequest) (w : World) :
  (exists response, (PostRepo repos request w).1.1 = Returns (Some response) None)
  \/ (exists e, (PostRepo repos request w).1.1 = Returns None (Some e)).
Proof.
  destruct (PostRepo_paths repos request w)
    as [[_ ->]|[[e ->]|[(_ & _ & ->)|(r & d & m & Er & Ed & _ & ->)]]];
    [left; by eexists|right; by eexists|left; by eexists|].
  destruct (Create r d m w) as [[[m0 e] r'] w'] eqn:E.
  pose proof (Create_outcome _ _ _ _ _ _ _ _ E) as H.
  destruct e as [e|]; [right; by eexists|].
  destruct m0 as [m0|]; [|by destruct H].
  destruct (match wrapMetadata (Meta m0) with
            | Some (WireGeneric s a l) => FromGenericMetadata MediaMeta_zero s a l
            | Some (WireAnime n) => FromAnimeMetadata MediaMeta_zero n
            | _ => (MediaMeta_zero, None)
            end) as [m1 [e|]]; [right|left]; by eexists.
Qed.

(** X17. A 200 response names an entity that is in the repository of the
    request afterwards.  The id was not in the repository before; [Get]
    finds under it an entity with the path [Create] wrote the decoded data
    to, the format the response shows on the wire, and the metadata of the
    request; the other ids of the repository are as before. *)
Theorem PostRepo_stores_what_it_answers (repos repos' : gmap string Repository)
    (request : PostRepoRequest) (w w' : World) (media : WireMedia)
    (err : option error) :
  PostRepo repos request w = (Returns (Some (PostRepo200 media)) err, repos', w') ->
  exists r r' d m0,
    repos !! rq_Repo request = Some r
    /\ base64_DecodeString (rq_Data request) = inl d
    /\ repos' !! rq_Repo request = Some r'
    /\ Get r (wm_Id media) = None
    /\ Get r' (wm_Id media) = Some m0
    /\ ID m0 = wm_Id media
    /\ Path m0 = destination r (wm_Id media) d
    /\ Format_ m0 = classify (mime_String (mimetype_Detect d))
    /\ wm_Format media = wrapFormat (Format_ m0)
    /\ Meta m0 = match rq_Meta request with
                 | None => None
                 | Some mm => match ValueByDiscriminator mm with
                              | inl v => unwrapMetadata v
                              | inr _ => None
                              end
                 end
    /\ forall k, k <> wm_Id media -> Get r' k = Get r k.
Proof.
  destruct (PostRepo_paths repos request w)
    as [[_ ->]|[[e ->]|[(_ & _ & ->)|(r & d & m & Er & Ed & Em & ->)]]];
    [done..|].
  destruct (Create r d m w) as [[[m0 e] r'] w1] eqn:E.
  pose proof (Create_outcome _ _ _ _ _ _ _ _ E) as H.
  destruct e as [e|]; [done|].
  destruct m0 as [m0|]; [|done].
  destruct (match wrapMetadata (Meta m0) with
            | Some (WireGeneric s a l) => FromGenericMetadata MediaMeta_zero s a l
            | Some (WireAnime n) => FromAnimeMetadata MediaMeta_zero n
            | _ => (MediaMeta_zero, None)
            end) as [m1 [e|]]; [done|].
  intros R. injection R as <- <- <- <-. cbn [wm_Id wm_Format].
  destruct H as [Hm H]. destruct (H eq_refl) as (G & G' & Gk).
  exists r, r', d, m0. split; [done|]. split; [done|].
  split; [apply lookup_insert_eq|].
  split; [done|]. split; [done|]. split; [done|].
  split; [by rewrite Hm at 1 2|]. split; [by rewrite Hm|].
  split; [done|]. split; [by rewrite Hm, Em|done].
Qed.

(** X18. A 400 response means that nothing was done: the repositories of
    the server and the world, with its files and its trace, are as before
    the call.  The repository was unknown, or the data was not base64. *)
Theorem PostRepo_refusal_changes_nothing (repos repos' : gmap string Repository)
    (request : PostRepoRequest) (w w' : World) (e : WireError)
    (err : option error) :
  PostRepo repos request w = (Returns (Some (PostRepo400 e)) err, repos', w') ->
  repos' = repos /\ w' = w /\ err = None
  /\ match we_Type e with
     | WireNotFound => repos !! rq_Repo request = None
     | WireBadRequest =>
         is_Some (repos !! rq_Repo request)
         /\ exists e', base64_DecodeString (rq_Data request) = inr e'
     end.
Proof.
  destruct (PostRepo_paths repos request w)
    as [[Er ->]|[[e0 ->]|[(Er & Ed & ->)|(r & d & m & Er & Ed & Em & ->)]]];
    [by intros [= <- <- <- <-]|done|by intros [= <- <- <- <-]|].
  destruct (Create r d m w) as [[[m0 e0] r'] w1] eqn:E.
  destruct e0 as [e0|]; [done|].
  destruct m0 as [m0|]; [|done].
  by destruct (match wrapMetadata (Meta m0) with
               | Some (WireGeneric s a l) => FromGenericMetadata MediaMeta_zero s a l
               | Some (WireAnime n) => FromAnimeMetadata MediaMeta_zero n
               | _ => (MediaMeta_zero, None)
               end) as [m1 [e1|]].
Qed.

(** X19. An upload to a repository without a directory is never answered
    with an entity.  When the request decodes, the answer is the error
    [ErrUnsupported] of [Create]; in every case no system call is made. *)
Theorem PostRepo_memory_repository (repos : gmap string Repository)
    (request : PostRepoRequest) (r : Repository) (w : World) :
  repos !! rq_Repo request = Some r -> path r = "" ->
  (PostRepo repos request w).2 = w
  /\ (forall media err,
        (PostRepo repos request w).1.1 <> Returns (Some (PostRepo200 media)) err)
  /\ (forall d,
        base64_DecodeString (rq_Data request) = inl d ->
        (forall mm e, rq_Meta request = Some mm -> ValueByDiscriminator mm <> inr e) ->
        (PostRepo repos request w).1.1 = Returns None (Some ErrUnsupported)).
Proof.
  intros Er Hp. split; [|split].
  - destruct (PostRepo_paths repos request w)
      as [[_ ->]|[[e ->]|[(_ & _ & ->)|(r0 & d & m & Er' & _ & _ & ->)]]];
      [done..|].
    assert (r0 = r) as -> by congruence. by rewrite Create_memory.
  - destruct (PostRepo_paths repos request w)
      as [[_ ->]|[[e ->]|[(_ & _ & ->)|(r0 & d & m & Er' & _ & _ & ->)]]];
      [done..|].
    assert (r0 = r) as -> by congruence. by rewrite Create_memory.
  - intros d Ed Hm. unfold PostRepo. rewrite Er, Ed.
    destruct (rq_Meta request) as [mm|].
    + destruct (ValueByDiscriminator mm) as [v|e] eqn:Ev;
        [|by destruct (Hm mm e eq_refl)].
      by rewrite bind_run, Create_memory.
    + by rewrite bind_run, Create_memory.
Qed.

End Serving.

Lemma PostRepo_stores_what_it_answers_witness :
  exists media repos' w' r' m0,
    PostRepo served upload_gif w0 = (Returns (Some (PostRepo200 media)) None, repos', w')
    /\ wm_Format media = WireAnimatedImage
    /\ repos' !! "r" = Some r'
    /\ Get r' (wm_Id media) = Some m0
    /\ Path m0 = destination srv (wm_Id media) gif_payload.
Proof.
  assert ((PostRepo served upload_gif w0).1.1
          = Returns (Some (PostRepo200
                             (mkWireMedia WireAnimatedImage 1%N MediaMeta_zero)))
                    None) as Ho by reflexivity.
  destruct (PostRepo served upload_gif w0) as [[o repos'] w'] eqn:E.
  cbn [fst snd] in Ho. subst o.
  destruct (PostRepo_stores_what_it_answers _ _ _ _ _ _ _ E)
    as (r & r' & d & m0 & Er & Ed & Er' & _ & G & _ & Hp & _).
  assert (r = srv) as -> by (vm_compute in Er; by injection Er as <-).
  assert (d = gif_payload) as -> by (vm_compute in Ed; by injection Ed as <-).
  exists (mkWireMedia WireAnimatedImage 1%N MediaMeta_zero), repos', w', r', m0.
  split; [reflexivity|]. split; [reflexivity|]. split; [exact Er'|].
  split; [exact G|exact Hp].
Defined.

Lemma PostRepo_refusal_changes_nothing_witness :
  exists e,
    PostRepo served upload_junk w0 = (Returns (Some (PostRepo400 e)) None, served, w0)
    /\ we_Type e = WireBadRequest.
Proof.
  assert ((PostRepo served upload_junk w0).1.1
          = Returns (Some (PostRepo400
                             (mkWireError WireBadRequest "failed to decode data")))
                    None) as Ho by reflexivity.
  destruct (PostRepo served upload_junk w0) as [[o repos'] w'] eqn:E.
  cbn [fst snd] in Ho. subst o.
  destruct (PostRepo_refusal_changes_nothing _ _ _ _ _ _ _ E) as (-> & -> & _ & _).
  by eexists.
Defined.

Lemma PostRepo_memory_repository_witness :
  (PostRepo served upload_mem w0).2 = w0
  /\ (PostRepo served upload_mem w0).1.1 = Returns None (Some ErrUnsupported).
Proof.
  assert (served !! rq_Repo upload_mem = Some (NewMemory "mem")) as H1
    by (vm_compute; reflexivity).
  assert (path (NewMemory "mem") = "") as H2 by reflexivity.
  destruct (PostRepo_memory_repository served upload_mem _ w0 H1 H2) as (Hw & _ & He).
  split; [exact Hw|].
  apply (He gif_payload); [vm_compute; reflexivity|].
  intros mm e Hm. discriminate Hm.
Defined.
